(** * GPU async conversion patterns

    A shallow embedding of [backends/gpu/lib/passes/gpu_async_patterns.cc]:
    the legality classifier contributed by
    [populateGpuAsyncConversionPatterns], the region outliner
    [NestLegalOpsInConversionAsyncExecPattern], the byte-size computation
    [GetTypeSizeBytes] and the memref folding and rewriting patterns.

    Operations are pointers in the source.  Here an operation carries a
    number that stands for its address, and the rewriter hands out unused
    numbers for the operations it creates. *)

From Stdlib Require Import List ZArith Lia Bool String PeanoNat Permutation.
Import ListNotations.

Set Implicit Arguments.

(** ** Types, values, operations *)

Inductive Signedness := Signless | Signed | Unsigned.

(** The types the pass looks at.  [ShapedType] stands for the memref, tensor
    and vector types: an element type and a shape. *)
Inductive MlirType :=
| IntegerType (width : Z) (signedness : Signedness)
| FloatType (width : Z)
| IndexType
| ComplexType (element : MlirType)
| ShapedType (element : MlirType) (shape : list Z)
| BufferType
| ChainType
| StreamType
| OpaqueType (name : string).

Inductive LogicalResult := success | failure.

Definition succeeded (r : LogicalResult) : bool :=
  match r with success => true | failure => false end.

(** Operation names the outliner and the classifier tell apart. *)
Inductive OpName :=
| FuncOp
| CallOp            (* tfrt.call *)
| ReturnOp          (* tfrt.return *)
| AsyncExecuteOp    (* tfrt_gpu_conversion.async.execute *)
| OtherOp (name : string).

Definition isa_AsyncExecuteOp (n : OpName) : bool :=
  match n with AsyncExecuteOp => true | _ => false end.

(** A use of a value names its producer: the result of an operation or an
    argument of a block of the regions of a host operation. *)
Inductive Value :=
| OpResult (owner : nat) (index : nat)
| BlockArgument (host : nat) (index : nat).

Inductive Operation :=
| mkOp (id : nat) (name : OpName) (operands : list Value)
       (results : list MlirType) (regions : list (list Block))
with Block :=
| mkBlock (arguments : list MlirType) (operations : list Operation).

Definition op_id (op : Operation) : nat :=
  match op with mkOp i _ _ _ _ => i end.
Definition op_name (op : Operation) : OpName :=
  match op with mkOp _ n _ _ _ => n end.
Definition op_operands (op : Operation) : list Value :=
  match op with mkOp _ _ o _ _ => o end.
Definition op_results (op : Operation) : list MlirType :=
  match op with mkOp _ _ _ r _ => r end.
Definition op_regions (op : Operation) : list (list Block) :=
  match op with mkOp _ _ _ _ r => r end.
Definition getNumResults (op : Operation) : nat := List.length (op_results op).

Definition block_arguments (b : Block) : list MlirType :=
  match b with mkBlock a _ => a end.
Definition getOperations (b : Block) : list Operation :=
  match b with mkBlock _ o => o end.

(** ** The conversion target

    [ConversionTarget] belongs to the conversion framework.  What the pass
    uses of it is the per-name legality table, [addDynamicallyLegalOp] and
    [isLegal]: an operation is legal when its name is marked legal, or marked
    dynamically legal with a callback that accepts the operation. *)

Inductive LegalizationAction :=
| Legal
| Dynamic (legalityFn : Operation -> bool)
| Illegal.

Definition ConversionTarget := OpName -> option LegalizationAction.

Definition OpName_eqb (a b : OpName) : bool :=
  match a, b with
  | FuncOp, FuncOp | CallOp, CallOp | ReturnOp, ReturnOp
  | AsyncExecuteOp, AsyncExecuteOp => true
  | OtherOp x, OtherOp y => String.eqb x y
  | _, _ => false
  end.

Definition addDynamicallyLegalOp (target : ConversionTarget) (n : OpName)
    (callback : Operation -> bool) : ConversionTarget :=
  fun m => if OpName_eqb m n then Some (Dynamic callback) else target m.

Definition isLegal (target : ConversionTarget) (op : Operation) : bool :=
  match target (op_name op) with
  | Some Legal => true
  | Some (Dynamic legalityFn) => legalityFn op
  | Some Illegal => false
  | None => false
  end.

(** The legality part of [populateGpuAsyncConversionPatterns]: tfrt.call is
    dynamically legal, with the callback [op->getNumResults() == 0]. *)
Definition populateGpuAsyncConversionPatterns_target
    (target : ConversionTarget) : ConversionTarget :=
  addDynamicallyLegalOp target CallOp (fun op => getNumResults op =? 0).

(** ** The rewriter

    [fresh] is the next unused operation number; [created] logs the
    async.execute operations made through [rewriter.create], newest first. *)
Record PatternRewriter := mkRewriter {
  fresh : nat;
  created : list nat
}.

(** Modelled from the spec: the builder of the async.execute operation is not
    part of this file.  The new operation has no operands and no results and
    owns one region with one block; the block takes a completion token and a
    stream (argument 1 is the stream, see [GpuAsyncOpConversionGetStream]) and
    ends in a terminator whose operand 0 is the token it yields (see
    [GpuAsyncOpConversionGetChain]), at first the token it received. *)
Definition AsyncExecuteOp_terminator (n : nat) : Operation :=
  mkOp (S n) ReturnOp [BlockArgument n 0] [] [].

Definition AsyncExecuteOp_build (n : nat) : Operation :=
  mkOp n AsyncExecuteOp [] []
       [[mkBlock [ChainType; StreamType] [AsyncExecuteOp_terminator n]]].

Definition create_AsyncExecuteOp (rewriter : PatternRewriter)
    : Operation * PatternRewriter :=
  let n := fresh rewriter in
  (AsyncExecuteOp_build n, mkRewriter (S (S n)) (n :: created rewriter)).

(** [body->getOperations().splice(body->begin(), ..., first, last)]: the
    moved operations go in front of what the body block already holds. *)
Definition splice_into_body (exec : Operation) (moved : list Operation)
    : Operation :=
  match exec with
  | mkOp i n o r [[mkBlock args body]] =>
      mkOp i n o r [[mkBlock args (moved ++ body)]]
  | _ => exec
  end.

(** The async.execute operation holding [run], numbered [n]. *)
Definition outlined (n : nat) (run : list Operation) : Operation :=
  mkOp n AsyncExecuteOp [] []
       [[mkBlock [ChainType; StreamType]
           (run ++ [AsyncExecuteOp_terminator n])]].

(** ** State-passing traversal of lists *)

Section MapM.
Context {St A : Type} (f : A -> St -> A * St).

Fixpoint mapM (l : list A) (s : St) : list A * St :=
  match l with
  | [] => ([], s)
  | a :: l' =>
      let (a', s1) := f a s in
      let (l'', s2) := mapM l' s1 in
      (a' :: l'', s2)
  end.
End MapM.

(** ** The region outliner *)

Section Outliner.

Variable target : ConversionTarget.

(** Where a run can start: at the head of the block or right after an
    illegal operation. *)
Definition run_boundary (before : list Operation) : bool :=
  match rev before with
  | [] => true
  | op :: _ => negb (isLegal target op)
  end.

(** The loop of [matchAndRewriteBlock].  [ops] is what the iterator has
    still to visit.  [legal_begin] is the open run, from the operation
    [legal_begin] points at up to the iterator; the empty list is the null
    pointer.  The first component of the result is the block from the
    position of [legal_begin] on, as the loop leaves it. *)
Fixpoint matchAndRewriteBlock_loop (ops : list Operation)
    (legal_begin : list Operation) (rewriter : PatternRewriter)
    (result : LogicalResult)
    : list Operation * PatternRewriter * LogicalResult :=
  match ops with
  | [] => (legal_begin, rewriter, result)
  | op :: rest =>
      if isLegal target op then
        matchAndRewriteBlock_loop rest (legal_begin ++ [op]) rewriter result
      else
        match legal_begin with
        | [] =>
            let '(out, rewriter', result') :=
              matchAndRewriteBlock_loop rest [] rewriter result in
            (op :: out, rewriter', result')
        | _ :: _ =>
            let '(exec, rewriter1) := create_AsyncExecuteOp rewriter in
            let exec' := splice_into_body exec legal_begin in
            let '(out, rewriter', result') :=
              matchAndRewriteBlock_loop rest [] rewriter1 success in
            (exec' :: op :: out, rewriter', result')
        end
  end.

Definition matchAndRewriteBlock (block : Block) (rewriter : PatternRewriter)
    : Block * PatternRewriter * LogicalResult :=
  let '(ops, rewriter', result) :=
    matchAndRewriteBlock_loop (getOperations block) [] rewriter failure in
  (mkBlock (block_arguments block) ops, rewriter', result).

(** The callback handed to [func_op.walk].  [host] is the name of
    [block->getParentOp()]; the state is the rewriter and the captured
    [result]. *)
Definition walk_callback (host : OpName) (block : Block)
    (s : PatternRewriter * LogicalResult)
    : Block * (PatternRewriter * LogicalResult) :=
  if isa_AsyncExecuteOp host then (block, s)          (* WalkResult::skip() *)
  else
    let '(block', rewriter', r) := matchAndRewriteBlock block (fst s) in
    (block', (rewriter', if succeeded r then success else snd s)).

(** [Operation::walk] with a block callback and the default order, which
    is post-order: for every region and every block of the operation, the
    operations of the block are walked first and the callback sees the
    block afterwards.  A skip returned after the nested operations were
    visited has nothing left to skip.  [walk_block] is the part for one
    block of an operation named [host]. *)
Definition walk_block
    (walk : Operation -> PatternRewriter * LogicalResult ->
            Operation * (PatternRewriter * LogicalResult))
    (host : OpName) (b : Block) (s : PatternRewriter * LogicalResult)
    : Block * (PatternRewriter * LogicalResult) :=
  match b with
  | mkBlock args ops =>
      let (ops', s1) := mapM walk ops s in
      walk_callback host (mkBlock args ops') s1
  end.

Fixpoint walk (op : Operation) (s : PatternRewriter * LogicalResult)
    : Operation * (PatternRewriter * LogicalResult) :=
  match op with
  | mkOp i n opnds res regions =>
      let (regions', s') := mapM (mapM (walk_block walk n)) regions s in
      (mkOp i n opnds res regions', s')
  end.

(** [matchAndRewrite] on a function.  [startRootUpdate],
    [finalizeRootUpdate] and [cancelRootUpdate] only notify the driver;
    they do not touch the operations. *)
Definition matchAndRewrite (func_op : Operation) (rewriter : PatternRewriter)
    : LogicalResult * Operation * PatternRewriter :=
  let '(func_op', (rewriter', result)) := walk func_op (rewriter, failure) in
  (result, func_op', rewriter').

End Outliner.

(** ** Looking into a function: the operations it holds *)

(** The operation itself and every operation nested in it, hosts before
    their bodies, in program order. *)
Fixpoint subops (op : Operation) : list Operation :=
  match op with
  | mkOp _ _ _ _ regions =>
      op :: flat_map (flat_map (fun b =>
                        match b with
                        | mkBlock _ ops => flat_map subops ops
                        end)) regions
  end.

(** What identifies an operation apart from where it sits: its number, its
    name, the values it uses and the types of the values it defines. *)
Record Node := mkNode {
  node_id : nat;
  node_name : OpName;
  node_operands : list Value;
  node_results : list MlirType
}.

Definition node_of (op : Operation) : Node :=
  mkNode (op_id op) (op_name op) (op_operands op) (op_results op).

Definition nodes (op : Operation) : list Node := map node_of (subops op).

(** Operations that were there before a rewriter whose next unused number
    was [n0] made any. *)
Definition older_than (n0 : nat) (nd : Node) : bool := node_id nd <? n0.

(** The numbers of the operations directly in each block of an operation. *)
Definition block_members (op : Operation) : list (list (list nat)) :=
  map (map (fun b => map op_id (getOperations b))) (op_regions op).

Section FirstSome.
Context {A B : Type} (f : A -> option B).

Fixpoint first_some (l : list A) : option B :=
  match l with
  | [] => None
  | a :: l' => match f a with Some b => Some b | None => first_some l' end
  end.
End FirstSome.

(** The async.execute operations around the operation numbered [i], outermost
    first; [ctx] holds those met on the way down. *)
Fixpoint enclosing_async (i : nat) (ctx : list nat) (op : Operation)
    : option (list nat) :=
  match op with
  | mkOp j n _ _ regions =>
      if j =? i then Some ctx
      else
        let ctx' := if isa_AsyncExecuteOp n then ctx ++ [j] else ctx in
        first_some (first_some (fun b =>
                      match b with
                      | mkBlock _ ops => first_some (enclosing_async i ctx') ops
                      end)) regions
  end.

(** The reading of the recursion guard under which nothing that sits in the
    body of an async.execute operation, at any depth, gets a further
    async.execute operation around it by one invocation. *)
Definition never_rewrapped (target : ConversionTarget) (func_op : Operation)
    (rewriter : PatternRewriter) : Prop :=
  forall i ctx,
    enclosing_async i [] func_op = Some ctx -> ctx <> [] ->
    enclosing_async i [] (snd (fst (matchAndRewrite target func_op rewriter)))
      = Some ctx.

(** ** What a traversal step may do

    The steps of the walk have the shape [A -> state -> A * state], for
    operations, lists of operations, blocks and lists of blocks.  The three
    predicates below say of such a step what the outliner is to respect;
    each carries over from the elements of a list to [mapM] on the list. *)

Abbreviation WalkState := (PatternRewriter * LogicalResult)%type.

(** How many async.execute operations the rewriter has made. *)
Definition extractions (rewriter : PatternRewriter) : nat :=
  List.length (created rewriter).

(** The step reports success exactly when it extracts, and changes nothing
    when it does not. *)
Definition quiet {A : Type} (f : A -> WalkState -> A * WalkState) (a : A)
    : Prop :=
  forall s,
    extractions (fst s) <= extractions (fst (snd (f a s)))
    /\ (succeeded (snd (snd (f a s))) = true
        <-> succeeded (snd s) = true
            \/ extractions (fst s) < extractions (fst (snd (f a s))))
    /\ (extractions (fst (snd (f a s))) = extractions (fst s) ->
        f a s = (a, s)).

Definition block_subops (b : Block) : list Operation :=
  flat_map subops (getOperations b).

(** A node the outliner introduces: the host of a new region or its
    terminator, numbered from [n0] on. *)
Definition introduced (n0 : nat) (nd : Node) : Prop :=
  exists n,
    n0 <= n
    /\ (nd = node_of (AsyncExecuteOp_build n)
        \/ nd = node_of (AsyncExecuteOp_terminator n)).

(** The nodes of the operations of [l] that are older than [n0]. *)
Abbreviation old_nodes n0 l := (filter (older_than n0) (map node_of l)).

(** With a rewriter that numbers from [n0] on or later, the step leaves the
    older nodes as they are, in their order, and adds introduced nodes
    only.  [sub] lists the operations held by an [A]. *)
Definition keeps (n0 : nat) {A : Type} (sub : A -> list Operation)
    (f : A -> WalkState -> A * WalkState) (a : A) : Prop :=
  forall s,
    n0 <= fresh (fst s) ->
    n0 <= fresh (fst (snd (f a s)))
    /\ filter (older_than n0) (map node_of (sub (fst (f a s))))
       = filter (older_than n0) (map node_of (sub a))
    /\ (forall nd,
          In nd (map node_of (sub (fst (f a s)))) ->
          In nd (map node_of (sub a)) \/ introduced n0 nd).

(** [h'] is [h] after the walk: the same number and name, and, for an
    async.execute operation, the same operations directly in its blocks. *)
Definition same_place (h h' : Operation) : Prop :=
  op_id h' = op_id h
  /\ op_name h' = op_name h
  /\ (op_name h = AsyncExecuteOp -> block_members h' = block_members h).

Definition covers {A : Type} (sub : A -> list Operation)
    (f : A -> WalkState -> A * WalkState) (a : A) : Prop :=
  forall s h,
    In h (sub a) ->
    exists h', In h' (sub (fst (f a s))) /\ same_place h h'.

(** ** Byte sizes *)

(** [unsigned] is 32 bits wide. *)
Definition to_unsigned (z : Z) : Z := z mod 2 ^ 32.

(** [ShapedType::getNumElements]: the product of the dimensions. *)
Definition getNumElements (shape : list Z) : Z := fold_right Z.mul 1%Z shape.

Definition isIntOrFloat (type : MlirType) : bool :=
  match type with IntegerType _ _ | FloatType _ => true | _ => false end.

Definition isa_ShapedType (type : MlirType) : bool :=
  match type with ShapedType _ _ => true | _ => false end.

Definition isa_ComplexType (type : MlirType) : bool :=
  match type with ComplexType _ => true | _ => false end.

Definition isa_BufferType (type : MlirType) : bool :=
  match type with BufferType => true | _ => false end.

(** [GetTypeSizeBytes].  [None] is the [llvm_unreachable] at its end.  The
    product with the element count is taken in 64 bits and cut to [unsigned]
    on return, which is the product modulo 2^32. *)
Fixpoint GetTypeSizeBytes (type : MlirType) : option Z :=
  match type with
  | ShapedType element shape =>
      match GetTypeSizeBytes element with
      | Some n => Some (to_unsigned (n * getNumElements shape))
      | None => None
      end
  | IntegerType width _ => Some (to_unsigned (to_unsigned (width + 7) / 8))
  | FloatType width => Some (to_unsigned (to_unsigned (width + 7) / 8))
  | ComplexType element =>
      match GetTypeSizeBytes element with
      | Some n => Some (to_unsigned (n * 2))
      | None => None
      end
  | _ => None
  end.

(** One of the three kinds the function has a branch for. *)
Definition scalar_composite_or_complex (type : MlirType) : bool :=
  isIntOrFloat type || isa_ShapedType type || isa_ComplexType type.

(** Scalars, and composites and complex numbers of supported types. *)
Fixpoint supported (type : MlirType) : bool :=
  match type with
  | IntegerType _ _ | FloatType _ => true
  | ShapedType element _ | ComplexType element => supported element
  | _ => false
  end.

(** ** The conversion patterns *)

Module Conversion.

(** A value as a conversion pattern sees it: its type and, for a result, the
    operation that defines it. *)
Inductive Value :=
| BlockArgument (index : nat) (type : MlirType)
| OpResult (definingOp : DefiningOp)
with DefiningOp :=
| ConstantIndexOp (value : Z)                   (* arith.constant, index *)
| ConstantUI64Op (value : Z)                    (* tfrt.constant.ui64 *)
| UnrealizedConversionCastOp (type : MlirType) (input : Value)
| UnknownOp (id : nat) (type : MlirType).

Definition getType (v : Value) : MlirType :=
  match v with
  | BlockArgument _ t => t
  | OpResult (ConstantIndexOp _) => IndexType
  | OpResult (ConstantUI64Op _) => IntegerType 64 Unsigned
  | OpResult (UnrealizedConversionCastOp t _) => t
  | OpResult (UnknownOp _ t) => t
  end.

(** [v.getDefiningOp<arith::ConstantIndexOp>()], with its [value()]. *)
Definition getDefiningOp_ConstantIndexOp (v : Value) : option Z :=
  match v with
  | OpResult (ConstantIndexOp value) => Some value
  | _ => None
  end.

(** memref.view: [getType] is the type of its result; the other fields are
    its operands as written. *)
Record ViewOp := mkViewOp {
  view_source : Value;
  view_byte_shift : Value;
  view_sizes : list Value;
  view_getType : MlirType
}.

(** The operands of a memref.view after type conversion. *)
Record ViewOpAdaptor := mkViewOpAdaptor {
  adaptor_source : Value;
  adaptor_byte_shift : Value;
  adaptor_sizes : list Value
}.

(** memref.reinterpret_cast after type conversion: the source, the dynamic
    offsets and the static offset attributes, read with [getInt]. *)
Record ReinterpretCastOpAdaptor := mkReinterpretCastOpAdaptor {
  cast_source : Value;
  cast_offsets : list Value;
  cast_static_offsets : list Z
}.

Record AllocOp := mkAllocOp {        (* memref.alloc *)
  alloc_type : MlirType;
  alloc_dynamicSizes : list Value;
  alloc_symbolOperands : list Value
}.

Record AllocaOp := mkAllocaOp {      (* memref.alloca *)
  alloca_type : MlirType;
  alloca_dynamicSizes : list Value;
  alloca_symbolOperands : list Value
}.

Record DeallocOp := mkDeallocOp {    (* memref.dealloc *)
  dealloc_memref : Value
}.

(** The operation types [RewriteMemrefAllocPattern] is instantiated with. *)
Class AllocLike (OpTy : Type) := {
  alloc_getType : OpTy -> MlirType;
  alloc_isStatic : OpTy -> bool
}.

#[export] Instance AllocOp_AllocLike : AllocLike AllocOp := {
  alloc_getType := alloc_type;
  alloc_isStatic := fun op =>
    match alloc_dynamicSizes op, alloc_symbolOperands op with
    | [], [] => true
    | _, _ => false
    end
}.

#[export] Instance AllocaOp_AllocLike : AllocLike AllocaOp := {
  alloc_getType := alloca_type;
  alloc_isStatic := fun op =>
    match alloca_dynamicSizes op, alloca_symbolOperands op with
    | [], [] => true
    | _, _ => false
    end
}.

(** The operations of the target model that the patterns build. *)
Inductive NewOp :=
| MemViewOp (source offset size : Value)                 (* tfrt_gpu.mem.view *)
| GpuAllocOp (type : MlirType)
             (asyncDependencies dynamicSizes symbolOperands : list Value)
| GpuDeallocOp (asyncToken : option MlirType)
               (asyncDependencies : list Value) (memref : Value).

(** What a pattern did to the operation it was offered. *)
Inductive Rewrite :=
| notifyMatchFailure (reason : string)
| replaceOp (values : list Value)
| replaceOpWithNewOp (op : NewOp).

Definition logicalResult (r : Rewrite) : LogicalResult :=
  match r with
  | notifyMatchFailure _ => failure
  | replaceOp _ | replaceOpWithNewOp _ => success
  end.

Definition is_empty {A : Type} (l : list A) : bool :=
  match l with [] => true | _ => false end.

(** [FoldMemrefViewPattern::matchAndRewrite].  [None] is the abort in
    [GetTypeSizeBytes]. *)
Definition FoldMemrefViewPattern_matchAndRewrite (view_op : ViewOp)
    (adaptor : ViewOpAdaptor) : option Rewrite :=
  if negb (isa_BufferType (getType (adaptor_source adaptor))) then
    Some (notifyMatchFailure "expected BufferType source")
  else if negb (is_empty (adaptor_sizes adaptor)) then
    Some (notifyMatchFailure "expected no sizes")
  else
    let const_offset :=
      getDefiningOp_ConstantIndexOp (adaptor_byte_shift adaptor) in
    match GetTypeSizeBytes (view_getType view_op) with
    | None => None
    | Some dst_size_bytes =>
        match GetTypeSizeBytes (getType (view_source view_op)) with
        | None => None
        | Some src_size_bytes =>
            if match const_offset with
               | Some value => (value =? 0)%Z
               | None => false
               end && (src_size_bytes =? dst_size_bytes)%Z
            then Some (replaceOp [adaptor_source adaptor])
            else
              let offset :=
                OpResult (UnrealizedConversionCastOp (IntegerType 64 Unsigned)
                            (adaptor_byte_shift adaptor)) in
              let size := OpResult (ConstantUI64Op dst_size_bytes) in
              Some (replaceOpWithNewOp
                      (MemViewOp (adaptor_source adaptor) offset size))
        end
    end.

(** [FoldMemrefReinterpretCastPattern::matchAndRewrite]. *)
Definition FoldMemrefReinterpretCastPattern_matchAndRewrite
    (adaptor : ReinterpretCastOpAdaptor) : Rewrite :=
  if negb (isa_BufferType (getType (cast_source adaptor))) then
    notifyMatchFailure "expected BufferType source"
  else if negb (is_empty (cast_offsets adaptor))
          || existsb (fun attribute => negb (attribute =? 0)%Z)
                     (cast_static_offsets adaptor) then
    notifyMatchFailure "expected static zero offsets"
  else replaceOp [cast_source adaptor].

(** [RewriteMemrefAllocPattern<OpTy>::matchAndRewrite]. *)
Definition RewriteMemrefAllocPattern_matchAndRewrite {OpTy : Type}
    `{AllocLike OpTy} (alloc_op : OpTy) : Rewrite :=
  replaceOpWithNewOp (GpuAllocOp (alloc_getType alloc_op) [] [] []).

(** [RewriteMemrefDeallocPattern::matchAndRewrite]. *)
Definition RewriteMemrefDeallocPattern_matchAndRewrite
    (dealloc_op : DeallocOp) : Rewrite :=
  replaceOpWithNewOp (GpuDeallocOp None [] (dealloc_memref dealloc_op)).

(** An operation of a block, as far as the allocation patterns care. *)
Inductive MemOp :=
| Alloc (op : AllocOp)
| Alloca (op : AllocaOp)
| Dealloc (op : DeallocOp)
| Converted (op : NewOp)
| Unrelated (id : nat).

Definition is_generic_alloc_or_dealloc (op : MemOp) : bool :=
  match op with Alloc _ | Alloca _ | Dealloc _ => true | _ => false end.

(** A pattern as it is registered: with the kind of operation it matches.
    [None] stands for an operation of another kind. *)
Definition Pattern : Type := MemOp -> option Rewrite.

Definition RewriteMemrefAllocPattern_AllocOp : Pattern :=
  fun op =>
    match op with
    | Alloc a => Some (RewriteMemrefAllocPattern_matchAndRewrite a)
    | _ => None
    end.

Definition RewriteMemrefAllocPattern_AllocaOp : Pattern :=
  fun op =>
    match op with
    | Alloca a => Some (RewriteMemrefAllocPattern_matchAndRewrite a)
    | _ => None
    end.

Definition RewriteMemrefDeallocPattern : Pattern :=
  fun op =>
    match op with
    | Dealloc d => Some (RewriteMemrefDeallocPattern_matchAndRewrite d)
    | _ => None
    end.

(** The allocation and deallocation patterns that
    [populateGpuAsyncConversionPatterns] adds to the pattern set, in its
    order. *)
Definition alloc_dealloc_patterns : list Pattern :=
  [RewriteMemrefAllocPattern_AllocOp;
   RewriteMemrefAllocPattern_AllocaOp;
   RewriteMemrefDeallocPattern].

(** Modelled from the spec: the fixed-point rewrite driver, an external
    collaborator that is not part of the sources.  In the words of the spec
    it "repeatedly attempts every pattern against every operation/block
    until no pattern reports a change", "with an iteration cap to guarantee
    termination".  [attempt] tries the patterns of the set on one operation
    and gives what the first pattern that reports a change puts in its
    place: the new operation, or nothing when the operation is replaced by
    values; [None] when no pattern reports a change.  [sweep] attempts every
    operation of a block once and counts the changes; [drive] sweeps until a
    sweep reports no change or the cap is reached, and counts all changes. *)
Fixpoint attempt (patterns : list Pattern) (op : MemOp)
    : option (list MemOp) :=
  match patterns with
  | [] => None
  | pattern :: rest =>
      match pattern op with
      | Some (replaceOpWithNewOp new) => Some [Converted new]
      | Some (replaceOp _) => Some []
      | Some (notifyMatchFailure _) => attempt rest op
      | None => attempt rest op
      end
  end.

Fixpoint sweep (patterns : list Pattern) (block : list MemOp)
    : list MemOp * nat :=
  match block with
  | [] => ([], 0)
  | op :: rest =>
      let (rest', n) := sweep patterns rest in
      match attempt patterns op with
      | Some ops => (ops ++ rest', S n)
      | None => (op :: rest', n)
      end
  end.

Fixpoint drive (cap : nat) (patterns : list Pattern) (block : list MemOp)
    : list MemOp * nat :=
  match cap with
  | 0 => (block, 0)
  | S cap' =>
      let (block', n) := sweep patterns block in
      if n =? 0 then (block', 0)
      else
        let (block'', m) := drive cap' patterns block' in
        (block'', n + m)
  end.

End Conversion.

(** ** Sample inputs *)

(** A target for which the operations named "legal" and "if" are legal and
    every other operation, async.execute included, is not. *)
Definition sample_target : ConversionTarget :=
  fun n =>
    match n with
    | OtherOp "legal"%string | OtherOp "if"%string => Some Legal
    | _ => None
    end.

Definition legal_op (i : nat) : Operation :=
  mkOp i (OtherOp "legal"%string) [] [] [].

Definition illegal_op (i : nat) : Operation :=
  mkOp i (OtherOp "illegal"%string) [] [] [].

Definition sample_rewriter : PatternRewriter := mkRewriter 100 [].

(** A function whose body is one async.execute operation; the body of that
    operation holds an operation with a region of its own, in which a legal
    operation is followed by an illegal one. *)
Definition nested_in_async : Operation :=
  mkOp 0 FuncOp [] []
    [[mkBlock []
        [mkOp 1 AsyncExecuteOp [] []
           [[mkBlock [ChainType; StreamType]
               [mkOp 2 (OtherOp "if"%string) [] []
                  [[mkBlock [] [legal_op 3; illegal_op 4]]];
                mkOp 5 ReturnOp [BlockArgument 1 0] [] []]]]]]].

(** A function with two blocks that each end in an illegal operation. *)
Definition two_runs : Operation :=
  mkOp 0 FuncOp [] []
    [[mkBlock []
        [legal_op 1;
         mkOp 2 (OtherOp "illegal"%string) [OpResult 1 0] []
           [[mkBlock [] [legal_op 3; legal_op 4; illegal_op 5; legal_op 6]]]]]].

(** A function whose only block ends in a run of legal operations. *)
Definition trailing_run : Operation :=
  mkOp 0 FuncOp [] [] [[mkBlock [] [illegal_op 1; legal_op 2; legal_op 3]]].


Definition mismatch_adaptor : Conversion.ViewOpAdaptor :=
  Conversion.mkViewOpAdaptor
    (Conversion.OpResult (Conversion.UnknownOp 1 BufferType))
    (Conversion.OpResult (Conversion.ConstantIndexOp 0))
    [].

(** ** Further definitions: the scan, seen from outside *)

(** The places of a block where a legal operation is directly followed by an
    illegal one. *)
Fixpoint transitions (target : ConversionTarget) (ops : list Operation)
    : nat :=
  match ops with
  | [] => 0
  | a :: rest =>
      match rest with
      | [] => 0
      | b :: _ =>
          (if isLegal target a && negb (isLegal target b) then 1 else 0)
          + transitions target rest
      end
  end.

(** The last operation of a run, as a list of at most one operation. *)
Definition last_of (run : list Operation) : list Operation :=
  match rev run with
  | [] => []
  | op :: _ => [op]
  end.

(** A step that leaves its argument and the state as they are. *)
Definition unchanged_by {A : Type} (f : A -> WalkState -> A * WalkState)
    (a : A) : Prop :=
  forall s, f a s = (a, s).

(** The step shows what it extracts: each extraction adds two operations,
    a host and its terminator, to what the [A] holds, and every operation
    the rewriter logs stands in the result around a run that is not
    empty. *)
Definition shows_extractions {A : Type} (sub : A -> list Operation)
    (f : A -> WalkState -> A * WalkState) (a : A) : Prop :=
  forall s,
    List.length (sub (fst (f a s))) + 2 * extractions (fst s)
    = List.length (sub a) + 2 * extractions (fst (snd (f a s)))
    /\ exists new,
         created (fst (snd (f a s))) = new ++ created (fst s)
         /\ Forall (fun n =>
                      exists run,
                        run <> []
                        /\ In (outlined n run) (sub (fst (f a s)))) new.

(** A call that defines values. *)
Definition call_with_results (op : Operation) : bool :=
  match op_name op with
  | CallOp => 0 <? getNumResults op
  | _ => false
  end.

(** ** Stream and chain of an async.execute operation *)

(** What an accessor hands back: the null value, a value, or nothing because
    an index or a terminator it asks for is not there. *)
Inductive Accessed :=
| NullValue
| Found (v : Value)
| Invalid.

Fixpoint last_opt {A : Type} (l : list A) : option A :=
  match l with
  | [] => None
  | [a] => Some a
  | _ :: l' => last_opt l'
  end.

(** Rewrites the last element of a list; [None] when there is none or when
    [f] fails on it. *)
Fixpoint update_last {A : Type} (f : A -> option A) (l : list A)
    : option (list A) :=
  match l with
  | [] => None
  | [a] => match f a with Some a' => Some [a'] | None => None end
  | a :: l' =>
      match update_last f l' with
      | Some l'' => Some (a :: l'')
      | None => None
      end
  end.

(** [GpuAsyncOpConversionGetStream]: argument 1 of the region of an
    async.execute operation, the null value for any other parent and for no
    parent. *)
Definition GpuAsyncOpConversionGetStream (parent : option Operation)
    : Accessed :=
  match parent with
  | Some (mkOp i AsyncExecuteOp _ _ regions) =>
      match regions with
      | (b :: _) :: _ =>
          if 1 <? List.length (block_arguments b)
          then Found (BlockArgument i 1)
          else Invalid
      | _ => Invalid
      end
  | _ => NullValue
  end.

(** [GpuAsyncOpConversionGetChain]: operand 0 of the terminator of the last
    block of the region. *)
Definition GpuAsyncOpConversionGetChain (parent : option Operation)
    : Accessed :=
  match parent with
  | Some (mkOp _ AsyncExecuteOp _ _ regions) =>
      match regions with
      | region :: _ =>
          match last_opt region with
          | Some b =>
              match last_opt (getOperations b) with
              | Some terminator =>
                  match op_operands terminator with
                  | v :: _ => Found v
                  | [] => Invalid
                  end
              | None => Invalid
              end
          | None => Invalid
          end
      | [] => Invalid
      end
  | _ => NullValue
  end.

Definition setOperands (op : Operation) (operands : list Value) : Operation :=
  match op with mkOp i n _ r regions => mkOp i n operands r regions end.

(** [GpuAsyncOpConversionSetChain], on the region [chain.getParentRegion()]:
    the operands of the terminator of its last block become the one value
    [chain].  [None] when the region has no block or its last block is
    empty. *)
Definition GpuAsyncOpConversionSetChain (chain : Value) (region : list Block)
    : option (list Block) :=
  update_last
    (fun b =>
       match b with
       | mkBlock args ops =>
           match update_last (fun t => Some (setOperands t [chain])) ops with
           | Some ops' => Some (mkBlock args ops')
           | None => None
           end
       end)
    region.

(** ** Exact byte sizes *)

(** The byte size without the cut to 32 bits. *)
Fixpoint exact_size (type : MlirType) : option Z :=
  match type with
  | ShapedType element shape =>
      match exact_size element with
      | Some n => Some (n * getNumElements shape)%Z
      | None => None
      end
  | IntegerType width _ => Some ((width + 7) / 8)%Z
  | FloatType width => Some ((width + 7) / 8)%Z
  | ComplexType element =>
      match exact_size element with
      | Some n => Some (n * 2)%Z
      | None => None
      end
  | _ => None
  end.

(** Bit widths a scalar type can have: [unsigned] values that leave room for
    the rounding. *)
Fixpoint widths_in_range (type : MlirType) : bool :=
  match type with
  | IntegerType width _ | FloatType width =>
      ((0 <=? width) && (width + 7 <? 2 ^ 32))%Z
  | ShapedType element _ | ComplexType element => widths_in_range element
  | _ => true
  end.

(** ** Conversion of the types of an operation *)

Module TypeConversion.

(** An operation as [ConvertOpTypesPattern] uses it: the types of its
    results and its attributes. *)
Record TypedOp := mkTypedOp {
  getResultTypes : list MlirType;
  getAttrs : list (string * string)
}.

(** What the pattern did: a match failure, or the operation replaced by one
    of the same kind with the given result types, operands and attributes. *)
Inductive Outcome :=
| notifyMatchFailure (reason : string)
| replaceOpWithNewOp (result_types : list MlirType)
                     (operands : list Conversion.Value)
                     (attrs : list (string * string)).

Section Converter.

(** The type converter: [None] when a type cannot be converted, otherwise
    the types that take its place. *)
Variable convertType : MlirType -> option (list MlirType).

(** [TypeConverter::convertTypes]: converts the types in order, appending to
    [results], and fails at the first type that fails. *)
Fixpoint convertTypes (types : list MlirType) (results : list MlirType)
    : option (list MlirType) :=
  match types with
  | [] => Some results
  | t :: types' =>
      match convertType t with
      | Some converted => convertTypes types' (results ++ converted)
      | None => None
      end
  end.

(** [ConvertOpTypesPattern<OpTy>::matchAndRewrite]. *)
Definition ConvertOpTypesPattern_matchAndRewrite (op : TypedOp)
    (adaptor_operands : list Conversion.Value) : Outcome :=
  match convertTypes (getResultTypes op) [] with
  | None => notifyMatchFailure "failed to convert result types"
  | Some result_types =>
      replaceOpWithNewOp result_types adaptor_operands (getAttrs op)
  end.

End Converter.

End TypeConversion.

(** ** The DNN kernels *)

Module Dnn.

Inductive DType :=
| Invalid | UI8 | UI16 | UI32 | UI64 | I1 | I8 | I16 | I32 | I64
| BF16 | F16 | F32 | F64 | Complex64 | Complex128 | String_.

Definition DType_eqb (a b : DType) : bool :=
  match a, b with
  | Invalid, Invalid | UI8, UI8 | UI16, UI16 | UI32, UI32 | UI64, UI64
  | I1, I1 | I8, I8 | I16, I16 | I32, I32 | I64, I64
  | BF16, BF16 | F16, F16 | F32, F32 | F64, F64
  | Complex64, Complex64 | Complex128, Complex128 | String_, String_ => true
  | _, _ => false
  end.

(** A host tensor: element type, dimensions and the elements of its buffer,
    which holds [NumElements] of them. *)
Record DenseHostTensor := mkTensor {
  dtype : DType;
  shape : list Z;
  data : list Z
}.

Definition GetRank (t : DenseHostTensor) : nat := List.length (shape t).

Definition NumElements (t : DenseHostTensor) : Z :=
  fold_right Z.mul 1%Z (shape t).

Inductive Error :=
| StringError (message : string)
| WrapperError (code : Z).

Inductive Expected (A : Type) :=
| Ok (value : A)
| Err (error : Error).

Arguments Ok {A} value.
Arguments Err {A} error.

(** [GetTensorData<T>], with [T] given by its element type. *)
Definition GetTensorData (T : DType) (t : DenseHostTensor)
    : Expected (list Z) :=
  if negb (GetRank t =? 1) then
    Err (StringError "GetTensorData: input tensor is not a rank 1 tensor")
  else if negb (DType_eqb (dtype t) T) then
    Err (StringError
           "GetTensorData: input tensor type mismatch with desired vector type.")
  else Ok (firstn (Z.to_nat (NumElements t)) (data t)).

Inductive DnnPoolingMode :=
| kPoolingMax
| kPoolingAverageCountIncludePadding
| kPoolingAverageCountExcludePadding
| kPoolingMaxDeterministic.

Inductive DnnNanPropagation :=
| kNotPropagateNan
| kPropagateNan.

(** [IntToDnnPoolingMode], on an unsigned 32-bit number. *)
Definition IntToDnnPoolingMode (mode : Z) : Expected DnnPoolingMode :=
  match mode with
  | 0%Z => Ok kPoolingMax
  | 1%Z => Ok kPoolingAverageCountIncludePadding
  | 2%Z => Ok kPoolingAverageCountExcludePadding
  | 3%Z => Ok kPoolingMaxDeterministic
  | _ => Err (StringError "UI32 mode out of range for enum cast")
  end.

(** [IntToDnnNanPropagation]. *)
Definition IntToDnnNanPropagation (nan_propagation : Z)
    : Expected DnnNanPropagation :=
  match nan_propagation with
  | 0%Z => Ok kNotPropagateNan
  | 1%Z => Ok kPropagateNan
  | _ => Err (StringError "UI32 nan_propagation out of range for enum cast")
  end.

(** [static_cast<int>] of an unsigned 32-bit number. *)
Definition static_cast_int (z : Z) : Z :=
  if (z <? 2 ^ 31)%Z then z else (z - 2 ^ 32)%Z.

Section Wrapper.

(** The calls into the vendor library, which this file only forwards to:
    making a tensor descriptor for a platform, and setting its data type,
    dimensions and strides. *)
Variables Platform Descriptor : Type.
Variable wrapper_DnnCreateTensorDescriptor : Platform -> Expected Descriptor.
Variable wrapper_DnnSetTensorDescriptor :
  Descriptor -> Z * Platform -> list Z -> list Z -> option Error.

(** [DnnCreateTensorDescriptor]; [platform] is [context->platform()]. *)
Definition DnnCreateTensorDescriptor (platform : Platform) (data_type : Z)
    (dimensions strides : DenseHostTensor) : Expected Descriptor :=
  match wrapper_DnnCreateTensorDescriptor platform with
  | Err e => Err e
  | Ok descriptor =>
      if negb (DType_eqb (dtype dimensions) I32) then
        Err (StringError
               "DnnCreateTensorDescriptor: dimensions is not an I32 tensor.")
      else
        match GetTensorData I32 dimensions with
        | Err _ =>
            Err (StringError
                   "DnnCreateTensorDescriptor: dimensions is not a 1D tensor.")
        | Ok dimensions_data =>
            if negb (DType_eqb (dtype strides) I32) then
              Err (StringError
                     "DnnCreateTensorDescriptor: strides is not an I32 tensor.")
            else
              match GetTensorData I32 strides with
              | Err _ =>
                  Err (StringError
                         "DnnCreateTensorDescriptor: strides is not a 1D tensor.")
              | Ok strides_data =>
                  let dnn_data_type := (static_cast_int data_type, platform) in
                  match wrapper_DnnSetTensorDescriptor descriptor dnn_data_type
                          dimensions_data strides_data with
                  | Some error => Err error
                  | None => Ok descriptor
                  end
              end
        end
  end.

End Wrapper.

End Dnn.

(** ** Further sample inputs *)

(** A target that deems async.execute operations legal, beside the
    operations named "legal". *)
Definition rewrapping_target : ConversionTarget :=
  fun n =>
    match n with
    | OtherOp "legal"%string | AsyncExecuteOp => Some Legal
    | _ => None
    end.

(** memref<4294967296xi8>, whose byte size is 2^32. *)
Definition huge_memref : MlirType :=
  ShapedType (IntegerType 8 Signless) [4294967296%Z].

(** The region of an async.execute operation numbered 1 that holds one
    operation in front of its terminator. *)
Definition sample_region : list Block :=
  [mkBlock [ChainType; StreamType]
     [legal_op 2; mkOp 3 ReturnOp [BlockArgument 1 0] [] []]].

(** [huge_memref] viewed as memref<0xi8> at the constant offset 0. *)
Definition wrapping_view : Conversion.ViewOp :=
  Conversion.mkViewOp
    (Conversion.OpResult (Conversion.UnknownOp 1 huge_memref))
    (Conversion.OpResult (Conversion.ConstantIndexOp 0))
    []
    (ShapedType (IntegerType 8 Signless) [0%Z]).
(** * Properties *)

(** ** The legality classifier *)

(** C8: after [populateGpuAsyncConversionPatterns] has set up the target, a
    call operation is legal if and only if it has no results, whatever the
    target held before and whatever the types of the call; a call with one
    or more results is illegal. *)
Theorem call_legal_iff_no_results :
  forall (target : ConversionTarget) (op : Operation),
    op_name op = CallOp ->
    (isLegal (populateGpuAsyncConversionPatterns_target target) op = true
       <-> getNumResults op = 0)
    /\ (0 < getNumResults op ->
        isLegal (populateGpuAsyncConversionPatterns_target target) op = false).
Proof.
  intros target op Hname.
  unfold isLegal, populateGpuAsyncConversionPatterns_target,
    addDynamicallyLegalOp.
  rewrite Hname; cbn.
  split.
  - apply Nat.eqb_eq.
  - intros Hpos. apply Nat.eqb_neq. lia.
Qed.

Lemma call_legal_iff_no_results_witness :
  isLegal (populateGpuAsyncConversionPatterns_target sample_target)
          (mkOp 7 CallOp [OpResult 3 0] [ChainType] []) = false.
Proof.
  apply (proj2 (call_legal_iff_no_results sample_target
                  (mkOp 7 CallOp [OpResult 3 0] [ChainType] []) eq_refl)).
  cbn. lia.
Defined.

(** ** Byte sizes *)

Lemma GetTypeSizeBytes_supported :
  forall type,
    supported type = true <-> exists n, GetTypeSizeBytes type = Some n.
Proof.
  induction type as [w s | w | | e IH | e IH shape | | | | name]; cbn;
    try (split; [discriminate | intros [n Hn]; discriminate]);
    try (split; [intros _; eexists; reflexivity | reflexivity]).
  - rewrite IH. destruct (GetTypeSizeBytes e) as [m |].
    + split; intros _; eexists; reflexivity.
    + split; intros [n Hn]; discriminate.
  - rewrite IH. destruct (GetTypeSizeBytes e) as [m |].
    + split; intros _; eexists; reflexivity.
    + split; intros [n Hn]; discriminate.
Qed.

(** C6, amended: the byte-size computation aborts on a type that is none of
    scalar, composite or complex, and it returns a size exactly when the
    type is a scalar or is a composite or a complex number whose element
    type is, in turn, one it returns a size for. *)
Theorem GetTypeSizeBytes_aborts_or_returns :
  forall type,
    (scalar_composite_or_complex type = false ->
     GetTypeSizeBytes type = None)
    /\ (supported type = true <-> exists n, GetTypeSizeBytes type = Some n).
Proof.
  intros type. split.
  - destruct type; cbn; intros H; try reflexivity; discriminate.
  - apply GetTypeSizeBytes_supported.
Qed.

Lemma GetTypeSizeBytes_aborts_or_returns_witness :
  GetTypeSizeBytes (OpaqueType "token") = None.
Proof.
  apply (proj1 (GetTypeSizeBytes_aborts_or_returns (OpaqueType "token"))).
  reflexivity.
Defined.

(** C6 as stated fails: memref<4xindex> is a composite type, one of the
    three kinds, and the computation aborts on it, in the recursive call on
    its element type. *)
Lemma GetTypeSizeBytes_aborts_on_composite_of_index :
  scalar_composite_or_complex (ShapedType IndexType [4%Z]) = true
  /\ GetTypeSizeBytes (ShapedType IndexType [4%Z]) = None.
Proof. split; reflexivity. Qed.

(** ** The conversion patterns *)

Module ConversionFacts.
Import Conversion.

(** C7: when the converted source of a reinterpret-cast is a buffer, the
    pattern replaces the cast by its source if and only if there is no
    dynamic offset and every static offset is zero; in every other case it
    reports a match failure and rewrites nothing. *)
Theorem reinterpret_cast_folds_iff_zero_offsets :
  forall adaptor : ReinterpretCastOpAdaptor,
    isa_BufferType (getType (cast_source adaptor)) = true ->
    (FoldMemrefReinterpretCastPattern_matchAndRewrite adaptor
       = replaceOp [cast_source adaptor]
     <-> cast_offsets adaptor = []
         /\ Forall (fun offset => offset = 0%Z) (cast_static_offsets adaptor))
    /\ (~ (cast_offsets adaptor = []
           /\ Forall (fun offset => offset = 0%Z) (cast_static_offsets adaptor))
        -> FoldMemrefReinterpretCastPattern_matchAndRewrite adaptor
           = notifyMatchFailure "expected static zero offsets").
Proof.
  intros [src offs statics] Hbuf; cbn in *.
  unfold FoldMemrefReinterpretCastPattern_matchAndRewrite; cbn.
  rewrite Hbuf; cbn.
  assert (Hall : existsb (fun a => negb (a =? 0)%Z) statics = false
                 <-> Forall (fun offset => offset = 0%Z) statics).
  { induction statics as [| z zs IH]; cbn.
    - split; [constructor | reflexivity].
    - rewrite orb_false_iff, negb_false_iff, Z.eqb_eq, IH.
      split.
      + intros [Hz Hzs]. constructor; assumption.
      + intros H. inversion H; subst. split; [reflexivity | assumption]. }
  destruct offs as [| o offs]; cbn.
  - destruct (existsb (fun a => negb (a =? 0)%Z) statics) eqn:E.
    + split.
      * split; [discriminate |].
        intros [_ HF]. apply Hall in HF. discriminate.
      * reflexivity.
    + split.
      * split; [| reflexivity].
        intros _. split; [reflexivity | apply Hall; reflexivity].
      * intros Hn. exfalso. apply Hn.
        split; [reflexivity | apply Hall; reflexivity].
  - split.
    + split; [discriminate | intros [H _]; discriminate].
    + reflexivity.
Qed.

Lemma reinterpret_cast_folds_iff_zero_offsets_witness :
  FoldMemrefReinterpretCastPattern_matchAndRewrite
    (mkReinterpretCastOpAdaptor (OpResult (UnknownOp 1 BufferType)) []
       [0%Z; 0%Z])
  = replaceOp [OpResult (UnknownOp 1 BufferType)].
Proof.
  apply (reinterpret_cast_folds_iff_zero_offsets
           (mkReinterpretCastOpAdaptor (OpResult (UnknownOp 1 BufferType)) []
              [0%Z; 0%Z])).
  - reflexivity.
  - split; [reflexivity | repeat constructor].
Defined.




Lemma attempt_alloc_dealloc :
  forall op,
    attempt alloc_dealloc_patterns op
    = match op with
      | Alloc a => Some [Converted (GpuAllocOp (alloc_type a) [] [] [])]
      | Alloca a => Some [Converted (GpuAllocOp (alloca_type a) [] [] [])]
      | Dealloc d => Some [Converted (GpuDeallocOp None [] (dealloc_memref d))]
      | _ => None
      end.
Proof. intros [a | a | d | new | id]; reflexivity. Qed.

(** What a sweep with the allocation and deallocation patterns makes of a
    block: the operations it leaves, one for one, and the number of
    changes. *)
Lemma sweep_alloc_dealloc :
  forall block,
    List.length (fst (sweep alloc_dealloc_patterns block)) = List.length block
    /\ snd (sweep alloc_dealloc_patterns block)
       = List.length (filter is_generic_alloc_or_dealloc block)
    /\ Forall (fun op => is_generic_alloc_or_dealloc op = false)
              (fst (sweep alloc_dealloc_patterns block))
    /\ (forall k a, nth_error block k = Some (Alloc a) ->
          nth_error (fst (sweep alloc_dealloc_patterns block)) k
          = Some (Converted (GpuAllocOp (alloc_type a) [] [] [])))
    /\ (forall k a, nth_error block k = Some (Alloca a) ->
          nth_error (fst (sweep alloc_dealloc_patterns block)) k
          = Some (Converted (GpuAllocOp (alloca_type a) [] [] [])))
    /\ (forall k d, nth_error block k = Some (Dealloc d) ->
          nth_error (fst (sweep alloc_dealloc_patterns block)) k
          = Some (Converted (GpuDeallocOp None [] (dealloc_memref d)))).
Proof.
  induction block as [| op rest IH]; cbn [sweep].
  - cbn. repeat split; try constructor; intros [| k] x H; discriminate.
  - destruct (sweep alloc_dealloc_patterns rest) as [rest' n].
    cbn [fst snd] in IH. destruct IH as (L & C & F & Na & Nb & Nd).
    rewrite attempt_alloc_dealloc.
    destruct op as [a | a | d | new | id]; cbn [fst snd app List.length filter
      is_generic_alloc_or_dealloc];
      (split; [rewrite L; reflexivity |]);
      (split; [rewrite C; reflexivity |]);
      (split; [constructor; [reflexivity | exact F] |]);
      (split; [| split]);
      intros [| k] x H; cbn [nth_error] in *;
      try (injection H as <-; reflexivity);
      try discriminate;
      auto.
Qed.

Lemma sweep_settled :
  forall block,
    Forall (fun op => is_generic_alloc_or_dealloc op = false) block ->
    sweep alloc_dealloc_patterns block = (block, 0).
Proof.
  intros block HF. induction HF as [| op rest Hop _ IH]; cbn [sweep].
  - reflexivity.
  - rewrite IH, attempt_alloc_dealloc.
    destruct op; try reflexivity; discriminate.
Qed.

(** C9: the allocation pattern, for heap and for stack allocations alike,
    always matches and replaces the operation by one allocation primitive of
    the same type with no asynchronous dependencies, no dynamic sizes and no
    symbol operands, which for a statically-shaped allocation are all the
    size and symbol operands the operation had; the deallocation pattern
    always matches and replaces the operation by one deallocation primitive
    on the same buffer with no asynchronous dependencies and no completion
    token.  Under the driver, whatever its iteration cap above zero, every
    generic allocation and deallocation of a block is rewritten exactly
    once: the number of changes is the number of these operations, each
    stands replaced at its position by its primitive, none is left in its
    original form, and a further sweep changes nothing. *)
Theorem alloc_dealloc_rewritten_exactly_once :
  (forall (OpTy : Type) (inst : AllocLike OpTy) (alloc_op : OpTy),
      RewriteMemrefAllocPattern_matchAndRewrite alloc_op
      = replaceOpWithNewOp (GpuAllocOp (alloc_getType alloc_op) [] [] []))
  /\ (forall a : AllocOp,
        alloc_isStatic a = true ->
        RewriteMemrefAllocPattern_matchAndRewrite a
        = replaceOpWithNewOp
            (GpuAllocOp (alloc_type a) [] (alloc_dynamicSizes a)
                        (alloc_symbolOperands a)))
  /\ (forall a : AllocaOp,
        alloc_isStatic a = true ->
        RewriteMemrefAllocPattern_matchAndRewrite a
        = replaceOpWithNewOp
            (GpuAllocOp (alloca_type a) [] (alloca_dynamicSizes a)
                        (alloca_symbolOperands a)))
  /\ (forall dealloc_op : DeallocOp,
        RewriteMemrefDeallocPattern_matchAndRewrite dealloc_op
        = replaceOpWithNewOp
            (GpuDeallocOp None [] (dealloc_memref dealloc_op)))
  /\ (forall (cap : nat) (block : list MemOp),
        let block' := fst (drive (S cap) alloc_dealloc_patterns block) in
        let changes := snd (drive (S cap) alloc_dealloc_patterns block) in
        changes = List.length (filter is_generic_alloc_or_dealloc block)
        /\ List.length block' = List.length block
        /\ Forall (fun op => is_generic_alloc_or_dealloc op = false) block'
        /\ (forall k a, nth_error block k = Some (Alloc a) ->
              nth_error block' k
              = Some (Converted (GpuAllocOp (alloc_type a) [] [] [])))
        /\ (forall k a, nth_error block k = Some (Alloca a) ->
              nth_error block' k
              = Some (Converted (GpuAllocOp (alloca_type a) [] [] [])))
        /\ (forall k d, nth_error block k = Some (Dealloc d) ->
              nth_error block' k
              = Some (Converted (GpuDeallocOp None [] (dealloc_memref d))))
        /\ sweep alloc_dealloc_patterns block' = (block', 0)).
Proof.
  split; [| split; [| split; [| split]]].
  - intros OpTy inst alloc_op. reflexivity.
  - intros [ty dyn sym] Hs. cbn in Hs.
    destruct dyn; [| discriminate]. destruct sym; [| discriminate].
    reflexivity.
  - intros [ty dyn sym] Hs. cbn in Hs.
    destruct dyn; [| discriminate]. destruct sym; [| discriminate].
    reflexivity.
  - intros dealloc_op. reflexivity.
  - intros cap block block' changes. subst block' changes.
    pose proof (sweep_alloc_dealloc block) as Hsw.
    cbn [drive].
    destruct (sweep alloc_dealloc_patterns block) as [swept n] eqn:E.
    cbn [fst snd] in Hsw. destruct Hsw as (L & C & F & Na & Nb & Nd).
    assert (Hdrive : (if n =? 0 then (swept, 0)
                      else let (block'', m) :=
                             drive cap alloc_dealloc_patterns swept in
                           (block'', n + m))
                     = (swept, n)).
    { destruct n as [| n]; [reflexivity |]. cbn [Nat.eqb].
      destruct cap as [| cap]; cbn [drive].
      - rewrite Nat.add_0_r. reflexivity.
      - rewrite (sweep_settled F). cbn [Nat.eqb].
        rewrite Nat.add_0_r. reflexivity. }
    rewrite Hdrive. cbn [fst snd].
    repeat split; try assumption.
    apply sweep_settled. exact F.
Qed.

Lemma alloc_dealloc_rewritten_exactly_once_witness :
  RewriteMemrefAllocPattern_matchAndRewrite
    (mkAllocOp (ShapedType (FloatType 32) [2%Z; 3%Z]) [] [])
  = replaceOpWithNewOp
      (GpuAllocOp (ShapedType (FloatType 32) [2%Z; 3%Z]) [] [] []).
Proof.
  apply (proj1 (proj2 alloc_dealloc_rewritten_exactly_once)
           (mkAllocOp (ShapedType (FloatType 32) [2%Z; 3%Z]) [] [])).
  reflexivity.
Defined.

End ConversionFacts.

(** ** The scan of one block *)

Section BlockScan.

Variable target : ConversionTarget.

Lemma splice_into_fresh_body :
  forall n run, splice_into_body (AsyncExecuteOp_build n) run = outlined n run.
Proof. reflexivity. Qed.

(** Legal operations only lengthen the open run. *)
Lemma loop_legal_run :
  forall run ops legal_begin rewriter result,
    forallb (isLegal target) run = true ->
    matchAndRewriteBlock_loop target (run ++ ops) legal_begin rewriter result
    = matchAndRewriteBlock_loop target ops (legal_begin ++ run) rewriter result.
Proof.
  induction run as [| op run IH]; intros ops lb rw r Hall; cbn in *.
  - rewrite app_nil_r. reflexivity.
  - apply andb_prop in Hall. destruct Hall as [Hop Hrun].
    rewrite Hop, IH by assumption.
    rewrite <- app_assoc. reflexivity.
Qed.

(** An illegal operation closes a run that is open. *)
Lemma loop_extract :
  forall ill rest legal_begin rewriter result,
    isLegal target ill = false ->
    legal_begin <> [] ->
    matchAndRewriteBlock_loop target (ill :: rest) legal_begin rewriter result
    = let '(out, rewriter', result') :=
        matchAndRewriteBlock_loop target rest []
          (snd (create_AsyncExecuteOp rewriter)) success in
      (outlined (fresh rewriter) legal_begin :: ill :: out, rewriter', result').
Proof.
  intros ill rest lb rw r Hill Hlb. cbn. rewrite Hill.
  destruct lb as [| a lb]; [contradiction | reflexivity].
Qed.

(** The captured [result] only ever goes from failure to success, and
    nothing else depends on it. *)
Lemma loop_result_sticky :
  forall ops legal_begin rewriter result,
    matchAndRewriteBlock_loop target ops legal_begin rewriter result
    = let '(out, rewriter', result') :=
        matchAndRewriteBlock_loop target ops legal_begin rewriter failure in
      (out, rewriter', if succeeded result then success else result').
Proof.
  induction ops as [| op rest IH]; intros lb rw r; cbn.
  - destruct r; reflexivity.
  - destruct (isLegal target op).
    + apply IH.
    + destruct lb as [| a lb].
      * rewrite (IH [] rw r).
        destruct (matchAndRewriteBlock_loop target rest [] rw failure)
          as [[out rw'] r'].
        reflexivity.
      * destruct (matchAndRewriteBlock_loop target rest [] _ success)
          as [[out rw'] r'] eqn:E.
        rewrite (IH [] _ success) in E.
        destruct (matchAndRewriteBlock_loop target rest [] _ failure)
          as [[out0 rw0] r0].
        cbn in E. inversion E; subst.
        destruct r; reflexivity.
Qed.

Lemma loop_success :
  forall ops legal_begin rewriter out rewriter' result',
    matchAndRewriteBlock_loop target ops legal_begin rewriter failure
      = (out, rewriter', result') ->
    matchAndRewriteBlock_loop target ops legal_begin rewriter success
      = (out, rewriter', success).
Proof.
  intros ops lb rw out rw' r' H.
  rewrite loop_result_sticky, H. reflexivity.
Qed.

(** After an illegal operation the scan starts afresh. *)
Lemma loop_boundary :
  forall before op ops legal_begin rewriter result,
    isLegal target op = false ->
    matchAndRewriteBlock_loop target ((before ++ [op]) ++ ops) legal_begin
      rewriter result
    = let '(out1, rewriter1, result1) :=
        matchAndRewriteBlock_loop target (before ++ [op]) legal_begin rewriter
          result in
      let '(out2, rewriter2, result2) :=
        matchAndRewriteBlock_loop target ops [] rewriter1 result1 in
      (out1 ++ out2, rewriter2, result2).
Proof.
  induction before as [| a before IH]; intros op ops lb rw r Hop; cbn.
  - rewrite Hop. destruct lb as [| b lb]; cbn.
    + destruct (matchAndRewriteBlock_loop target ops [] rw r)
        as [[out rw'] r']. reflexivity.
    + destruct (matchAndRewriteBlock_loop target ops [] _ success)
        as [[out rw'] r']. reflexivity.
  - destruct (isLegal target a).
    + apply IH. assumption.
    + destruct lb as [| b lb].
      * rewrite (IH op ops [] rw r Hop).
        destruct (matchAndRewriteBlock_loop target (before ++ [op]) [] rw r)
          as [[out1 rw1] r1].
        destruct (matchAndRewriteBlock_loop target ops [] rw1 r1)
          as [[out2 rw2] r2].
        reflexivity.
      * rewrite (IH op ops [] _ success Hop).
        destruct (matchAndRewriteBlock_loop target (before ++ [op]) [] _ success)
          as [[out1 rw1] r1].
        destruct (matchAndRewriteBlock_loop target ops [] rw1 r1)
          as [[out2 rw2] r2].
        reflexivity.
Qed.

Lemma run_boundary_cases :
  forall before,
    run_boundary target before = true ->
    before = []
    \/ exists front op, before = front ++ [op] /\ isLegal target op = false.
Proof.
  intros before H. unfold run_boundary in H.
  destruct (rev before) as [| op l] eqn:E.
  - left. rewrite <- (rev_involutive before), E. reflexivity.
  - right. exists (rev l), op. split.
    + rewrite <- (rev_involutive before), E. reflexivity.
    + apply negb_true_iff. assumption.
Qed.

(** A prefix that ends at a run boundary is scanned on its own. *)
Lemma loop_after_boundary :
  forall before ops rewriter result,
    run_boundary target before = true ->
    matchAndRewriteBlock_loop target (before ++ ops) [] rewriter result
    = let '(out1, rewriter1, result1) :=
      matchAndRewriteBlock_loop target before [] rewriter result in
      let '(out2, rewriter2, result2) :=
        matchAndRewriteBlock_loop target ops [] rewriter1 result1 in
      (out1 ++ out2, rewriter2, result2).
Proof.
  intros before ops rw r H.
  destruct (run_boundary_cases before H) as [-> | (front & op & -> & Hop)].
  - cbn. destruct (matchAndRewriteBlock_loop target ops [] rw r)
      as [[out rw'] r']. reflexivity.
  - apply loop_boundary. assumption.
Qed.

(** C1: in the scan of a block, take a run of legal operations that starts
    at the head of the block or right after an illegal operation.  If the
    run reaches the end of the block, it is left in place.  If it is not
    empty and an illegal operation follows it, the run is replaced, at its
    position, by one new async.execute operation whose body holds the
    operations of the run in their order, followed by the terminator of the
    region; the illegal operation stays, and the scan goes on behind it.
    [before'] and [after'] are what the scan makes of the operations in
    front of the run and behind the illegal operation. *)
Theorem outliner_wraps_closed_runs_only :
  forall args before run rewriter before' rewriter1 result1,
    run_boundary target before = true ->
    forallb (isLegal target) run = true ->
    matchAndRewriteBlock target (mkBlock args before) rewriter
      = (mkBlock args before', rewriter1, result1) ->
    matchAndRewriteBlock target (mkBlock args (before ++ run)) rewriter
      = (mkBlock args (before' ++ run), rewriter1, result1)
    /\ forall ill after after' rewriter2 result2,
         run <> [] ->
         isLegal target ill = false ->
         matchAndRewriteBlock target (mkBlock args after)
             (snd (create_AsyncExecuteOp rewriter1))
           = (mkBlock args after', rewriter2, result2) ->
         matchAndRewriteBlock target
             (mkBlock args (before ++ run ++ ill :: after)) rewriter
           = (mkBlock args
                (before' ++ outlined (fresh rewriter1) run :: ill :: after'),
              rewriter2, success).
Proof.
  intros args before run rw before' rw1 r1 Hb Hrun Hbefore.
  unfold matchAndRewriteBlock in *; cbn in *.
  destruct (matchAndRewriteBlock_loop target before [] rw failure)
    as [[o1 w1] s1] eqn:E1.
  inversion Hbefore; subst; clear Hbefore.
  split.
  - rewrite (loop_after_boundary before run rw failure Hb), E1.
    rewrite <- (app_nil_r run) at 1.
    rewrite loop_legal_run by assumption. reflexivity.
  - intros ill after after' rw2 r2 Hne Hill Hafter.
    destruct (matchAndRewriteBlock_loop target after [] _ failure)
      as [[o2 w2] s2] eqn:E2.
    inversion Hafter; subst; clear Hafter.
    rewrite (loop_after_boundary before _ rw failure Hb), E1.
    rewrite loop_legal_run by assumption. cbn [app].
    rewrite loop_extract by assumption.
    cbn [snd create_AsyncExecuteOp] in *.
    rewrite (loop_success _ _ _ E2). reflexivity.
Qed.

(** Every operation the scan creates holds a run that is not empty. *)
Lemma loop_created_not_empty :
  forall ops legal_begin rewriter result out rewriter' result',
    matchAndRewriteBlock_loop target ops legal_begin rewriter result
      = (out, rewriter', result') ->
    forallb (isLegal target) legal_begin = true ->
    exists new,
      created rewriter' = new ++ created rewriter
      /\ Forall (fun n =>
                   exists run,
                     run <> []
                     /\ forallb (isLegal target) run = true
                     /\ incl run (legal_begin ++ ops)
                     /\ In (outlined n run) out) new.
Proof.
  induction ops as [| op rest IH]; intros lb rw r out rw' r' H Hlb; cbn in H.
  - inversion H; subst. exists []. split; [reflexivity | constructor].
  - destruct (isLegal target op) eqn:Hop.
    + apply IH in H.
      * destruct H as (new & Hc & HF). exists new. split; [assumption |].
        rewrite <- app_assoc in HF. exact HF.
      * rewrite forallb_app, Hlb. cbn. rewrite Hop. reflexivity.
    + destruct lb as [| a lb].
      * destruct (matchAndRewriteBlock_loop target rest [] rw r)
          as [[out0 rw0] r0] eqn:E.
        inversion H; subst; clear H.
        apply IH in E; [| reflexivity].
        destruct E as (new & Hc & HF). exists new. split; [assumption |].
        eapply Forall_impl; [| exact HF].
        intros n (run & Hne & Hleg & Hincl & Hin).
        exists run. repeat split; try assumption.
        -- intros x Hx. right. apply Hincl. exact Hx.
        -- right. exact Hin.
      * destruct (matchAndRewriteBlock_loop target rest [] _ success)
          as [[out0 rw0] r0] eqn:E.
        inversion H; subst; clear H.
        apply IH in E; [| reflexivity].
        destruct E as (new & Hc & HF).
        exists (new ++ [fresh rw]). split.
        -- rewrite Hc. cbn. rewrite <- app_assoc. reflexivity.
        -- apply Forall_app. split.
           ++ eapply Forall_impl; [| exact HF].
              intros n (run & Hne & Hleg & Hincl & Hin).
              exists run. repeat split; try assumption.
              ** intros x Hx. apply in_or_app. right. right.
                 apply Hincl. exact Hx.
              ** right. right. exact Hin.
           ++ constructor; [| constructor].
              exists (a :: lb). repeat split.
              ** discriminate.
              ** assumption.
              ** intros x Hx. apply in_or_app. left. exact Hx.
              ** left. reflexivity.
Qed.

(** C10: every async.execute operation that the scan of a block creates,
    that is every number the rewriter logged during the scan, stands in the
    scanned block with a body that holds a run of at least one operation,
    all of them legal operations of the block, in front of the terminator. *)
Theorem created_regions_are_not_empty :
  forall block rewriter block' rewriter' result,
    matchAndRewriteBlock target block rewriter = (block', rewriter', result) ->
    exists new,
      created rewriter' = new ++ created rewriter
      /\ Forall (fun n =>
                   exists run,
                     run <> []
                     /\ forallb (isLegal target) run = true
                     /\ incl run (getOperations block)
                     /\ In (outlined n run) (getOperations block')) new.
Proof.
  intros block rw block' rw' r H. unfold matchAndRewriteBlock in H.
  destruct (matchAndRewriteBlock_loop target (getOperations block) [] rw failure)
    as [[out w] s] eqn:E.
  inversion H; subst; clear H. cbn.
  apply (loop_created_not_empty _ _ _ _ E). reflexivity.
Qed.

End BlockScan.

Lemma outliner_wraps_closed_runs_only_witness :
  matchAndRewriteBlock sample_target
    (mkBlock [] ([illegal_op 1] ++ [legal_op 2; legal_op 3])) sample_rewriter
  = (mkBlock [] ([illegal_op 1] ++ [legal_op 2; legal_op 3]),
     sample_rewriter, failure)
  /\ matchAndRewriteBlock sample_target
       (mkBlock []
          ([illegal_op 1] ++ [legal_op 2; legal_op 3]
             ++ illegal_op 4 :: [legal_op 5]))
       sample_rewriter
     = (mkBlock []
          ([illegal_op 1]
             ++ outlined 100 [legal_op 2; legal_op 3]
             :: illegal_op 4 :: [legal_op 5]),
        mkRewriter 102 [100], success).
Proof.
  destruct (@outliner_wraps_closed_runs_only sample_target []
              [illegal_op 1] [legal_op 2; legal_op 3] sample_rewriter
              [illegal_op 1] sample_rewriter failure
              eq_refl eq_refl eq_refl) as [Htrail Hclosed].
  split.
  - exact Htrail.
  - apply (Hclosed (illegal_op 4) [legal_op 5] [legal_op 5]
             (mkRewriter 102 [100]) failure).
    + discriminate.
    + reflexivity.
    + reflexivity.
Defined.

Lemma created_regions_are_not_empty_witness :
  exists new,
    [100] = new ++ []
    /\ Forall (fun n =>
                 exists run,
                   run <> []
                   /\ forallb (isLegal sample_target) run = true
                   /\ incl run [legal_op 1; legal_op 2; illegal_op 3; legal_op 4]
                   /\ In (outlined n run)
                         [outlined 100 [legal_op 1; legal_op 2];
                          illegal_op 3; legal_op 4]) new.
Proof.
  apply (@created_regions_are_not_empty sample_target
           (mkBlock [] [legal_op 1; legal_op 2; illegal_op 3; legal_op 4])
           sample_rewriter
           (mkBlock [] [outlined 100 [legal_op 1; legal_op 2];
                        illegal_op 3; legal_op 4])
           (mkRewriter 102 [100]) success).
  reflexivity.
Defined.

(** ** The walk over a function *)

(** Induction over operations that reaches the operations of every block of
    every region. *)
Lemma Operation_nested_ind :
  forall P : Operation -> Prop,
    (forall i n o r regions,
        Forall (Forall (fun b => Forall P (getOperations b))) regions ->
        P (mkOp i n o r regions)) ->
    forall op, P op.
Proof.
  intros P H. fix IH 1. intros [i n o r regions]. apply H.
  induction regions as [| rg regions IHr]; constructor; [| exact IHr].
  induction rg as [| b rg IHb]; constructor; [| exact IHb].
  destruct b as [args ops]. cbn.
  induction ops as [| x ops IHo]; constructor; [apply IH | exact IHo].
Qed.

Lemma subops_unfold :
  forall i n o r regions,
    subops (mkOp i n o r regions)
    = mkOp i n o r regions :: flat_map (flat_map block_subops) regions.
Proof.
  intros. cbn. f_equal.
  apply flat_map_ext. intros rg.
  apply flat_map_ext. intros [args ops]. reflexivity.
Qed.

Lemma walk_unfold :
  forall target i n o r regions s,
    walk target (mkOp i n o r regions) s
    = (mkOp i n o r
         (fst (mapM (mapM (walk_block target (walk target) n)) regions s)),
       snd (mapM (mapM (walk_block target (walk target) n)) regions s)).
Proof.
  intros. cbn.
  destruct (mapM (mapM (walk_block target (walk target) n)) regions s).
  reflexivity.
Qed.

Section Quiet.

Variable target : ConversionTarget.

Lemma mapM_quiet :
  forall (A : Type) (f : A -> WalkState -> A * WalkState) (l : list A),
    Forall (quiet f) l -> quiet (mapM f) l.
Proof.
  intros A f l HF. induction HF as [| a l Ha _ IH]; intros s; cbn.
  - split; [lia | split].
    + split; [intros H; left; exact H | intros [H | H]; [exact H | lia]].
    + reflexivity.
  - specialize (Ha s).
    destruct (f a s) as [a' s1] eqn:E1.
    specialize (IH s1).
    destruct (mapM f l s1) as [l' s2] eqn:E2.
    cbn in *.
    destruct Ha as (Ha1 & Ha2 & Ha3), IH as (Hl1 & Hl2 & Hl3).
    split; [lia | split; [split |]].
    + intros H. apply Hl2 in H. destruct H as [H | H].
      * apply Ha2 in H. destruct H as [H | H]; [left; exact H | right; lia].
      * right. lia.
    + intros [H | H].
      * apply Hl2. left. apply Ha2. left. exact H.
      * destruct (Nat.eq_dec (extractions (fst s1)) (extractions (fst s)))
          as [Heq | Hneq].
        -- apply Hl2. right. lia.
        -- apply Hl2. left. apply Ha2. right. lia.
    + intros Heq.
      assert (H1 : extractions (fst s1) = extractions (fst s)) by lia.
      assert (H2 : extractions (fst s2) = extractions (fst s1)) by lia.
      apply Ha3 in H1. apply Hl3 in H2.
      inversion H1; inversion H2; subst. reflexivity.
Qed.

Lemma loop_quiet :
  forall ops legal_begin rewriter result out rewriter' result',
    matchAndRewriteBlock_loop target ops legal_begin rewriter result
      = (out, rewriter', result') ->
    extractions rewriter <= extractions rewriter'
    /\ (succeeded result' = true
        <-> succeeded result = true
            \/ extractions rewriter < extractions rewriter')
    /\ (extractions rewriter' = extractions rewriter ->
        out = legal_begin ++ ops /\ rewriter' = rewriter).
Proof.
  induction ops as [| op rest IH]; intros lb rw r out rw' r' H; cbn in H.
  - inversion H; subst. rewrite app_nil_r.
    split; [lia | split].
    + split; [intros H0; left; exact H0 | intros [H0 | H0]; [exact H0 | lia]].
    + intros _. split; reflexivity.
  - destruct (isLegal target op).
    + apply IH in H. rewrite <- app_assoc in H. exact H.
    + destruct lb as [| a lb].
      * destruct (matchAndRewriteBlock_loop target rest [] rw r)
          as [[out0 rw0] r0] eqn:E.
        inversion H; subst; clear H.
        apply IH in E. destruct E as (E1 & E2 & E3).
        split; [exact E1 | split; [exact E2 |]].
        intros Heq. apply E3 in Heq. destruct Heq as [-> ->].
        split; reflexivity.
      * destruct (matchAndRewriteBlock_loop target rest [] _ success)
          as [[out0 rw0] r0] eqn:E.
        inversion H; subst; clear H.
        apply IH in E. unfold extractions in *. cbn in E.
        destruct E as (E1 & E2 & E3).
        split; [lia | split; [split |]].
        -- intros _. right. lia.
        -- intros _. apply E2. left. reflexivity.
        -- intros Heq. lia.
Qed.

Lemma walk_callback_quiet :
  forall host block, quiet (walk_callback target host) block.
Proof.
  intros host [args ops] s. unfold walk_callback, matchAndRewriteBlock.
  destruct (isa_AsyncExecuteOp host); cbn.
  - split; [lia | split].
    + split; [intros H; left; exact H | intros [H | H]; [exact H | lia]].
    + reflexivity.
  - destruct (matchAndRewriteBlock_loop target ops [] (fst s) failure)
      as [[out rw'] r'] eqn:E.
    apply loop_quiet in E. destruct E as (E1 & E2 & E3).
    destruct r'; cbn in *.
    + assert (Hlt : extractions (fst s) < extractions rw').
      { destruct (proj1 E2 eq_refl) as [X | X]; [discriminate | exact X]. }
      split; [exact E1 | split; [split |]].
      * intros _. right. exact Hlt.
      * intros _. reflexivity.
      * intros Heq. lia.
    + split; [exact E1 | split; [split |]].
      * intros H. left. exact H.
      * intros [H | H]; [exact H |].
        assert (Hc : false = true) by (apply (proj2 E2); right; exact H).
        discriminate.
      * intros Heq. destruct (E3 Heq) as [-> ->].
        destruct s. reflexivity.
Qed.

Lemma walk_block_quiet :
  forall host block,
    Forall (quiet (walk target)) (getOperations block) ->
    quiet (walk_block target (walk target) host) block.
Proof.
  intros host [args ops] HF s. cbn in HF.
  pose proof (mapM_quiet HF s) as Hm.
  unfold walk_block.
  destruct (mapM (walk target) ops s) as [ops' s1] eqn:E1. cbn in Hm.
  pose proof (walk_callback_quiet host (mkBlock args ops') s1) as Hc.
  destruct (walk_callback target host (mkBlock args ops') s1) as [b' s2] eqn:E2.
  cbn in *.
  destruct Hm as (M1 & M2 & M3), Hc as (C1 & C2 & C3).
  split; [lia | split; [split |]].
  - intros H. apply C2 in H. destruct H as [H | H].
    + apply M2 in H. destruct H as [H | H]; [left; exact H | right; lia].
    + right. lia.
  - intros [H | H].
    + apply C2. left. apply M2. left. exact H.
    + destruct (Nat.eq_dec (extractions (fst s1)) (extractions (fst s)))
        as [Heq | Hneq].
      * apply C2. right. lia.
      * apply C2. left. apply M2. right. lia.
  - intros Heq.
    assert (H1 : extractions (fst s1) = extractions (fst s)) by lia.
    assert (H2 : extractions (fst s2) = extractions (fst s1)) by lia.
    apply M3 in H1. apply C3 in H2.
    inversion H1; inversion H2; subst. reflexivity.
Qed.

Lemma walk_quiet : forall op, quiet (walk target) op.
Proof.
  induction op as [i n o r regions IH] using Operation_nested_ind.
  assert (Hq : quiet (mapM (mapM (walk_block target (walk target) n))) regions).
  { apply mapM_quiet.
    eapply Forall_impl; [| exact IH].
    intros rg Hrg. apply mapM_quiet.
    eapply Forall_impl; [| exact Hrg].
    intros b Hb. apply walk_block_quiet. exact Hb. }
  intros s. rewrite walk_unfold. specialize (Hq s). cbn.
  destruct (mapM (mapM (walk_block target (walk target) n)) regions s)
    as [regions' s'] eqn:E.
  cbn in *. destruct Hq as (Q1 & Q2 & Q3).
  split; [exact Q1 | split; [exact Q2 |]].
  intros Heq. apply Q3 in Heq. inversion Heq; subst. reflexivity.
Qed.

End Quiet.


Section Keeps.

Variable target : ConversionTarget.
Variable n0 : nat.

Lemma old_nodes_app :
  forall l1 l2 : list Operation,
    old_nodes n0 (l1 ++ l2) = old_nodes n0 l1 ++ old_nodes n0 l2.
Proof. intros. rewrite map_app, filter_app. reflexivity. Qed.

Lemma subops_outlined :
  forall n run,
    subops (outlined n run)
    = outlined n run :: flat_map subops run ++ [AsyncExecuteOp_terminator n].
Proof.
  intros n run. unfold outlined. rewrite subops_unfold. cbn.
  unfold block_subops. cbn. rewrite flat_map_app. cbn.
  rewrite !app_nil_r. reflexivity.
Qed.

Lemma old_nodes_new :
  forall op : Operation, n0 <= op_id op -> old_nodes n0 [op] = [].
Proof.
  intros op H. cbn [map filter]. unfold older_than, node_of. cbn [node_id].
  destruct (Nat.ltb_spec (op_id op) n0) as [H' | H']; [lia | reflexivity].
Qed.

Lemma old_nodes_outlined :
  forall n run,
    n0 <= n ->
    old_nodes n0 (subops (outlined n run)) = old_nodes n0 (flat_map subops run).
Proof.
  intros n run Hn. rewrite subops_outlined.
  change (outlined n run :: flat_map subops run
            ++ [AsyncExecuteOp_terminator n])
    with ([outlined n run] ++ flat_map subops run
            ++ [AsyncExecuteOp_terminator n]).
  rewrite !old_nodes_app.
  rewrite (old_nodes_new (outlined n run)) by exact Hn.
  rewrite (old_nodes_new (AsyncExecuteOp_terminator n)) by (cbn; lia).
  rewrite app_nil_r. reflexivity.
Qed.

Lemma mapM_keeps :
  forall (A : Type) (sub : A -> list Operation)
         (f : A -> WalkState -> A * WalkState) (l : list A),
    Forall (keeps n0 sub f) l -> keeps n0 (flat_map sub) (mapM f) l.
Proof.
  intros A sub f l HF. induction HF as [| a l Ha _ IH]; intros s Hs; cbn.
  - split; [exact Hs | split; [reflexivity |]].
    intros nd H. left. exact H.
  - specialize (Ha s Hs). destruct (f a s) as [a' s1]. cbn in Ha.
    destruct Ha as (H1 & H2 & H3).
    specialize (IH s1 H1). destruct (mapM f l s1) as [l' s2]. cbn in *.
    destruct IH as (L1 & L2 & L3).
    split; [exact L1 | split].
    + rewrite !old_nodes_app, H2, L2. reflexivity.
    + intros nd Hin. rewrite map_app in *. apply in_app_or in Hin.
      destruct Hin as [Hin | Hin].
      * destruct (H3 nd Hin) as [X | X]; [left | right; exact X].
        apply in_or_app. left. exact X.
      * destruct (L3 nd Hin) as [X | X]; [left | right; exact X].
        apply in_or_app. right. exact X.
Qed.

Lemma loop_keeps :
  forall ops legal_begin rewriter result out rewriter' result',
    n0 <= fresh rewriter ->
    matchAndRewriteBlock_loop target ops legal_begin rewriter result
      = (out, rewriter', result') ->
    n0 <= fresh rewriter'
    /\ old_nodes n0 (flat_map subops out)
       = old_nodes n0 (flat_map subops (legal_begin ++ ops))
    /\ (forall nd,
          In nd (map node_of (flat_map subops out)) ->
          In nd (map node_of (flat_map subops (legal_begin ++ ops)))
          \/ introduced n0 nd).
Proof.
  induction ops as [| op rest IH]; intros lb rw r out rw' r' Hn H; cbn in H.
  - inversion H; subst. rewrite app_nil_r.
    split; [exact Hn | split; [reflexivity |]].
    intros nd Hin. left. exact Hin.
  - destruct (isLegal target op).
    + apply IH in H; [| exact Hn]. rewrite <- app_assoc in H. exact H.
    + destruct lb as [| a lb].
      * destruct (matchAndRewriteBlock_loop target rest [] rw r)
          as [[out0 rw0] r0] eqn:E.
        inversion H; subst; clear H.
        apply IH in E; [| exact Hn]. destruct E as (E1 & E2 & E3).
        cbn in *.
        split; [exact E1 | split].
        -- rewrite !old_nodes_app, E2. reflexivity.
        -- intros nd Hin. rewrite map_app in *. apply in_app_or in Hin.
           destruct Hin as [Hin | Hin].
           ++ left. apply in_or_app. left. exact Hin.
           ++ destruct (E3 nd Hin) as [X | X]; [left | right; exact X].
              apply in_or_app. right. exact X.
      * destruct (matchAndRewriteBlock_loop target rest [] _ success)
          as [[out0 rw0] r0] eqn:E.
        inversion H; subst; clear H.
        apply IH in E; [| cbn; lia]. destruct E as (E1 & E2 & E3).
        cbn [app] in E2, E3.
        change (mkOp (fresh rw) AsyncExecuteOp [] []
                  [[mkBlock [ChainType; StreamType]
                      (a :: lb ++ [AsyncExecuteOp_terminator (fresh rw)])]])
          with (outlined (fresh rw) (a :: lb)).
        remember (a :: lb) as run eqn:Hrun. clear Hrun.
        split; [exact E1 | split].
        -- rewrite flat_map_app. cbn [flat_map].
           repeat rewrite old_nodes_app.
           rewrite E2, old_nodes_outlined by exact Hn. reflexivity.
        -- intros nd Hin.
           rewrite flat_map_app, map_app, in_app_iff.
           cbn [flat_map] in *.
           rewrite !map_app, !in_app_iff in *.
           destruct Hin as [Hin | [Hin | Hin]].
           ++ rewrite subops_outlined in Hin. cbn [map] in Hin.
              destruct Hin as [Hin | Hin].
              { right. exists (fresh rw). split; [exact Hn |].
                left. rewrite <- Hin. reflexivity. }
              rewrite map_app, in_app_iff in Hin.
              destruct Hin as [Hin | Hin]; [left; left; exact Hin |].
              cbn in Hin. destruct Hin as [Hin | []].
              right. exists (fresh rw). split; [exact Hn |].
              right. rewrite <- Hin. reflexivity.
           ++ left. right. left. exact Hin.
           ++ destruct (E3 nd Hin) as [X | X]; [| right; exact X].
              left. right. right. exact X.
Qed.

Lemma walk_callback_keeps :
  forall host block, keeps n0 block_subops (walk_callback target host) block.
Proof.
  intros host [args ops] s Hs. unfold walk_callback, matchAndRewriteBlock.
  destruct (isa_AsyncExecuteOp host); cbn.
  - split; [exact Hs | split; [reflexivity |]].
    intros nd H. left. exact H.
  - destruct (matchAndRewriteBlock_loop target ops [] (fst s) failure)
      as [[out rw'] r'] eqn:E.
    apply loop_keeps in E; [| exact Hs]. exact E.
Qed.

Lemma walk_block_keeps :
  forall host block,
    Forall (keeps n0 subops (walk target)) (getOperations block) ->
    keeps n0 block_subops (walk_block target (walk target) host) block.
Proof.
  intros host [args ops] HF s Hs. cbn in HF.
  pose proof (mapM_keeps HF s Hs) as Hm.
  unfold walk_block.
  destruct (mapM (walk target) ops s) as [ops' s1] eqn:E1. cbn in Hm.
  destruct Hm as (M1 & M2 & M3).
  pose proof (walk_callback_keeps host (mkBlock args ops') s1 M1) as Hc.
  destruct (walk_callback target host (mkBlock args ops') s1) as [b' s2] eqn:E2.
  cbn in Hc. destruct Hc as (C1 & C2 & C3).
  cbn. unfold block_subops in *. cbn in *.
  split; [exact C1 | split].
  - rewrite C2. exact M2.
  - intros nd Hin. destruct (C3 nd Hin) as [X | X]; [| right; exact X].
    apply M3. exact X.
Qed.

Lemma walk_keeps : forall op, keeps n0 subops (walk target) op.
Proof.
  induction op as [i n o r regions IH] using Operation_nested_ind.
  assert (Hk : keeps n0 (flat_map (flat_map block_subops))
                 (mapM (mapM (walk_block target (walk target) n))) regions).
  { apply mapM_keeps.
    eapply Forall_impl; [| exact IH].
    intros rg Hrg. apply mapM_keeps.
    eapply Forall_impl; [| exact Hrg].
    intros b Hb. apply walk_block_keeps. exact Hb. }
  intros s Hs. rewrite walk_unfold. specialize (Hk s Hs). cbn [fst snd].
  destruct (mapM (mapM (walk_block target (walk target) n)) regions s)
    as [regions' s'] eqn:E.
  cbn [fst snd] in *. destruct Hk as (K1 & K2 & K3).
  rewrite !subops_unfold.
  split; [exact K1 | split].
  - change (mkOp i n o r regions'
            :: flat_map (flat_map block_subops) regions')
      with ([mkOp i n o r regions']
              ++ flat_map (flat_map block_subops) regions').
    change (mkOp i n o r regions :: flat_map (flat_map block_subops) regions)
      with ([mkOp i n o r regions]
              ++ flat_map (flat_map block_subops) regions).
    rewrite !old_nodes_app, K2. reflexivity.
  - intros nd Hin. cbn [map] in *. destruct Hin as [Hin | Hin].
    + left. left. exact Hin.
    + destruct (K3 nd Hin) as [X | X]; [left; right; exact X | right; exact X].
Qed.

End Keeps.

Lemma filter_all :
  forall (A : Type) (p : A -> bool) (l : list A),
    (forall a, In a l -> p a = true) -> filter p l = l.
Proof.
  intros A p l. induction l as [| a l IH]; intros H; cbn.
  - reflexivity.
  - rewrite (H a (or_introl eq_refl)), IH; [reflexivity |].
    intros b Hb. apply H. right. exact Hb.
Qed.

(** C3: take a function whose operations are all numbered below the
    rewriter's next unused number.  After one invocation of the outliner,
    dropping the nodes the invocation made leaves exactly the nodes of the
    function as it was: the same operations, each once, in the same program
    order, each with the operands and result types it had.  In particular
    the multiset of operations is unchanged.  What is dropped are hosts of new
    regions and their terminators only. *)
Theorem outliner_moves_operations_only :
  forall (target : ConversionTarget) (func_op : Operation)
         (rewriter : PatternRewriter),
    (forall nd, In nd (nodes func_op) -> node_id nd < fresh rewriter) ->
    let func_op' := snd (fst (matchAndRewrite target func_op rewriter)) in
    filter (older_than (fresh rewriter)) (nodes func_op') = nodes func_op
    /\ Permutation (filter (older_than (fresh rewriter)) (nodes func_op'))
                   (nodes func_op)
    /\ (forall nd,
          In nd (nodes func_op') ->
          older_than (fresh rewriter) nd = false ->
          introduced (fresh rewriter) nd).
Proof.
  intros target func_op rw Hold. unfold matchAndRewrite.
  pose proof (@walk_keeps target (fresh rw) func_op (rw, failure) (le_n _))
    as Hk.
  destruct (walk target func_op (rw, failure)) as [f' [rw' r']] eqn:E.
  cbn [fst snd] in *. destruct Hk as (_ & K2 & K3).
  assert (Hall : filter (older_than (fresh rw)) (nodes func_op)
                 = nodes func_op).
  { apply filter_all. intros nd Hin. unfold older_than.
    apply Nat.ltb_lt. apply Hold. exact Hin. }
  assert (Heq : filter (older_than (fresh rw)) (nodes f') = nodes func_op).
  { unfold nodes in *. rewrite K2. exact Hall. }
  split; [exact Heq | split].
  - rewrite Heq. apply Permutation_refl.
  - intros nd Hin Hnew. destruct (K3 nd Hin) as [X | X]; [| exact X].
    apply Hold in X. unfold older_than in Hnew.
    apply Nat.ltb_ge in Hnew. lia.
Qed.

Lemma outliner_moves_operations_only_witness :
  filter (older_than 100)
         (nodes (snd (fst (matchAndRewrite sample_target two_runs
                                           sample_rewriter))))
  = nodes two_runs.
Proof.
  apply (@outliner_moves_operations_only sample_target two_runs
           sample_rewriter).
  intros nd Hin. cbn in Hin.
  repeat (destruct Hin as [Hin | Hin]; [subst nd; cbn; lia |]).
  contradiction.
Defined.

Section Covers.

Variable target : ConversionTarget.

Lemma walk_id_name :
  forall op s,
    op_id (fst (walk target op s)) = op_id op
    /\ op_name (fst (walk target op s)) = op_name op.
Proof.
  intros [i n o r regions] s. rewrite walk_unfold. split; reflexivity.
Qed.

Lemma mapM_map :
  forall (St A B : Type) (f : A -> St -> A * St) (g : A -> B),
    (forall a s, g (fst (f a s)) = g a) ->
    forall l s, map g (fst (mapM f l s)) = map g l.
Proof.
  intros St A B f g H l. induction l as [| a l IH]; intros s; cbn.
  - reflexivity.
  - specialize (H a s). destruct (f a s) as [a' s1].
    specialize (IH s1). destruct (mapM f l s1) as [l' s2].
    cbn in *. rewrite H, IH. reflexivity.
Qed.

(** The blocks of an async.execute operation keep their operations. *)
Lemma walk_block_async_members :
  forall block s,
    map op_id
        (getOperations
           (fst (walk_block target (walk target) AsyncExecuteOp block s)))
    = map op_id (getOperations block).
Proof.
  intros [args ops] s. unfold walk_block.
  pose proof (mapM_map (walk target) op_id
                (fun a s0 => proj1 (walk_id_name a s0)) ops s) as Hm.
  destruct (mapM (walk target) ops s) as [ops' s1].
  cbn in *. exact Hm.
Qed.

Lemma walk_async_members :
  forall i o r regions s,
    block_members (fst (walk target (mkOp i AsyncExecuteOp o r regions) s))
    = block_members (mkOp i AsyncExecuteOp o r regions).
Proof.
  intros i o r regions s. rewrite walk_unfold. unfold block_members. cbn.
  apply mapM_map. intros rg s0.
  apply mapM_map. intros b s1.
  apply walk_block_async_members.
Qed.

Lemma same_place_refl : forall h, same_place h h.
Proof. intros h. repeat split. Qed.

Lemma mapM_covers :
  forall (A : Type) (sub : A -> list Operation)
         (f : A -> WalkState -> A * WalkState) (l : list A),
    Forall (covers sub f) l -> covers (flat_map sub) (mapM f) l.
Proof.
  intros A sub f l HF. induction HF as [| a l Ha _ IH]; intros s h Hin;
    cbn in *.
  - contradiction.
  - specialize (Ha s h). specialize (IH (snd (f a s)) h).
    destruct (f a s) as [a' s1]. cbn in *.
    destruct (mapM f l s1) as [l' s2]. cbn in *.
    apply in_app_or in Hin. destruct Hin as [Hin | Hin].
    + destruct (Ha Hin) as (h' & Hh' & Hs). exists h'.
      split; [apply in_or_app; left; exact Hh' | exact Hs].
    + destruct (IH Hin) as (h' & Hh' & Hs). exists h'.
      split; [apply in_or_app; right; exact Hh' | exact Hs].
Qed.

(** The scan moves operations; it drops none. *)
Lemma loop_covers :
  forall ops legal_begin rewriter result out rewriter' result',
    matchAndRewriteBlock_loop target ops legal_begin rewriter result
      = (out, rewriter', result') ->
    forall h,
      In h (flat_map subops (legal_begin ++ ops)) ->
      In h (flat_map subops out).
Proof.
  induction ops as [| op rest IH]; intros lb rw r out rw' r' H h Hin;
    cbn in H.
  - inversion H; subst. rewrite app_nil_r in Hin. exact Hin.
  - destruct (isLegal target op).
    + eapply IH; [exact H |]. rewrite <- app_assoc. exact Hin.
    + destruct lb as [| a lb].
      * destruct (matchAndRewriteBlock_loop target rest [] rw r)
          as [[out0 rw0] r0] eqn:E.
        inversion H; subst; clear H. cbn in *.
        apply in_app_or in Hin. apply in_or_app.
        destruct Hin as [Hin | Hin]; [left; exact Hin | right].
        eapply IH; [exact E | exact Hin].
      * destruct (matchAndRewriteBlock_loop target rest [] _ success)
          as [[out0 rw0] r0] eqn:E.
        inversion H; subst; clear H.
        change (mkOp (fresh rw) AsyncExecuteOp [] []
                  [[mkBlock [ChainType; StreamType]
                      (a :: lb ++ [AsyncExecuteOp_terminator (fresh rw)])]])
          with (outlined (fresh rw) (a :: lb)).
        remember (a :: lb) as run eqn:Hrun. clear Hrun.
        rewrite flat_map_app in Hin. cbn [flat_map] in *.
        rewrite !in_app_iff in *. rewrite subops_outlined.
        destruct Hin as [Hin | [Hin | Hin]].
        -- left. right. apply in_or_app. left. exact Hin.
        -- right. left. exact Hin.
        -- right. right. eapply IH; [exact E | exact Hin].
Qed.

Lemma walk_callback_covers :
  forall host block s h,
    In h (block_subops block) ->
    In h (block_subops (fst (walk_callback target host block s))).
Proof.
  intros host [args ops] s h Hin. unfold walk_callback, matchAndRewriteBlock.
  destruct (isa_AsyncExecuteOp host); cbn.
  - exact Hin.
  - destruct (matchAndRewriteBlock_loop target ops [] (fst s) failure)
      as [[out rw'] r'] eqn:E.
    cbn. unfold block_subops in *. cbn in *.
    eapply loop_covers; [exact E | exact Hin].
Qed.

Lemma walk_block_covers :
  forall host block,
    Forall (covers subops (walk target)) (getOperations block) ->
    covers block_subops (walk_block target (walk target) host) block.
Proof.
  intros host [args ops] HF s h Hin. cbn in HF.
  destruct (mapM_covers HF s h Hin) as (h1 & Hh1 & Hs).
  unfold walk_block.
  destruct (mapM (walk target) ops s) as [ops' s1]. cbn in Hh1.
  exists h1. split; [| exact Hs].
  apply walk_callback_covers. exact Hh1.
Qed.

Lemma walk_covers : forall op, covers subops (walk target) op.
Proof.
  induction op as [i n o r regions IH] using Operation_nested_ind.
  assert (Hc : covers (flat_map (flat_map block_subops))
                 (mapM (mapM (walk_block target (walk target) n))) regions).
  { apply mapM_covers.
    eapply Forall_impl; [| exact IH].
    intros rg Hrg. apply mapM_covers.
    eapply Forall_impl; [| exact Hrg].
    intros b Hb. apply walk_block_covers. exact Hb. }
  intros s h Hin.
  pose proof (walk_async_members i o r regions s) as Hmem.
  rewrite walk_unfold in *. cbn [fst] in *.
  rewrite subops_unfold in *.
  destruct Hin as [Hin | Hin].
  - subst h. eexists. split; [left; reflexivity |].
    split; [reflexivity | split; [reflexivity |]].
    cbn. intros ->. exact Hmem.
  - destruct (Hc s h Hin) as (h' & Hh' & Hs).
    exists h'. split; [right; exact Hh' | exact Hs].
Qed.

(** C5, amended: the callback returns at once on a block whose immediate
    host is an async.execute operation, so the block is not scanned; and
    every async.execute operation of the function is found again after the
    invocation, under its number, with the same operations directly in
    each of its blocks, in the same order: none was moved out of its body
    and no new region was put into it. *)
Theorem async_bodies_are_not_scanned :
  (forall block s,
      walk_callback target AsyncExecuteOp block s = (block, s))
  /\ forall (func_op : Operation) (rewriter : PatternRewriter) (h : Operation),
       In h (subops func_op) ->
       op_name h = AsyncExecuteOp ->
       exists h',
         In h' (subops (snd (fst (matchAndRewrite target func_op rewriter))))
         /\ op_id h' = op_id h
         /\ op_name h' = AsyncExecuteOp
         /\ block_members h' = block_members h.
Proof.
  split; [reflexivity |].
  intros func_op rw h Hin Hname. unfold matchAndRewrite.
  destruct (walk_covers func_op (rw, failure) h Hin) as (h' & Hh' & Hs).
  destruct (walk target func_op (rw, failure)) as [f' [rw' r']].
  cbn in *. destruct Hs as (S1 & S2 & S3).
  exists h'. split; [exact Hh' | split; [exact S1 | split]].
  - rewrite S2. exact Hname.
  - apply S3. exact Hname.
Qed.

End Covers.

Lemma async_bodies_are_not_scanned_witness :
  exists h',
    In h' (subops (snd (fst (matchAndRewrite sample_target nested_in_async
                                             sample_rewriter))))
    /\ op_id h' = 1
    /\ op_name h' = AsyncExecuteOp
    /\ block_members h' = [[[2; 5]]].
Proof.
  apply (proj2 (async_bodies_are_not_scanned sample_target) nested_in_async
           sample_rewriter
           (mkOp 1 AsyncExecuteOp [] []
              [[mkBlock [ChainType; StreamType]
                  [mkOp 2 (OtherOp "if") [] []
                     [[mkBlock [] [legal_op 3; illegal_op 4]]];
                   mkOp 5 ReturnOp [BlockArgument 1 0] [] []]]])).
  - right. left. reflexivity.
  - reflexivity.
Defined.

(** C5 as stated fails: in [nested_in_async] the operation numbered 3 sits
    inside the body of the async.execute operation numbered 1, in a block
    hosted by the operation numbered 2.  The walk reaches that block, and
    one invocation moves the operation into the new async.execute operation
    numbered 100. *)
Lemma nested_operation_is_rewrapped :
  ~ never_rewrapped sample_target nested_in_async sample_rewriter.
Proof.
  intros H. specialize (H 3 [1] eq_refl).
  assert (Hne : [1] <> []) by discriminate.
  apply H in Hne. vm_compute in Hne. discriminate.
Qed.

(** ** Extractions show in the function *)

Section Shows.

Variable target : ConversionTarget.

Lemma in_flat_map_subops :
  forall (x : Operation) (l : list Operation),
    In x l -> In x (flat_map subops l).
Proof.
  intros x l Hin. apply in_flat_map. exists x. split; [exact Hin |].
  destruct x. rewrite subops_unfold. left. reflexivity.
Qed.

Lemma mapM_shows :
  forall (A : Type) (sub : A -> list Operation)
         (f : A -> WalkState -> A * WalkState) (l : list A),
    Forall (shows_extractions sub f) l ->
    shows_extractions (flat_map sub) (mapM f) l.
Proof.
  intros A sub f l HF. induction HF as [| a l Ha _ IH]; intros s; cbn.
  - split; [reflexivity |]. exists []. split; [reflexivity | constructor].
  - specialize (Ha s). destruct (f a s) as [a' s1]. cbn in Ha.
    specialize (IH s1). destruct (mapM f l s1) as [l' s2]. cbn in *.
    destruct Ha as (La & newa & Ca & Fa), IH as (Ll & newl & Cl & Fl).
    split.
    + rewrite !length_app. lia.
    + exists (newl ++ newa). split.
      * rewrite Cl, Ca, app_assoc. reflexivity.
      * apply Forall_app. split.
        -- eapply Forall_impl; [| exact Fl].
           intros n (run & Hne & Hin). exists run. split; [exact Hne |].
           apply in_or_app. right. exact Hin.
        -- eapply Forall_impl; [| exact Fa].
           intros n (run & Hne & Hin). exists run. split; [exact Hne |].
           apply in_or_app. left. exact Hin.
Qed.

(** Every extraction adds a host and a terminator to the block. *)
Lemma loop_size :
  forall ops legal_begin rewriter result out rewriter' result',
    matchAndRewriteBlock_loop target ops legal_begin rewriter result
      = (out, rewriter', result') ->
    List.length (flat_map subops out) + 2 * extractions rewriter
    = List.length (flat_map subops (legal_begin ++ ops))
      + 2 * extractions rewriter'.
Proof.
  induction ops as [| op rest IH]; intros lb rw r out rw' r' H; cbn in H.
  - injection H as <- <- <-. rewrite app_nil_r. reflexivity.
  - destruct (isLegal target op).
    + apply IH in H. rewrite <- app_assoc in H. exact H.
    + destruct lb as [| a lb].
      * destruct (matchAndRewriteBlock_loop target rest [] rw r)
          as [[out0 rw0] r0] eqn:E.
        injection H as <- <- <-. apply IH in E.
        cbn [app flat_map] in *. rewrite !length_app. lia.
      * destruct (matchAndRewriteBlock_loop target rest [] _ success)
          as [[out0 rw0] r0] eqn:E.
        injection H as <- <- <-. apply IH in E.
        unfold extractions in *. cbn [created List.length app] in E.
        change (mkOp (fresh rw) AsyncExecuteOp [] []
                  [[mkBlock [ChainType; StreamType]
                      (a :: lb ++ [AsyncExecuteOp_terminator (fresh rw)])]])
          with (outlined (fresh rw) (a :: lb)).
        remember (a :: lb) as run eqn:Hrun. clear Hrun.
        rewrite flat_map_app. cbn [flat_map].
        rewrite subops_outlined.
        cbn [app List.length]. rewrite !length_app.
        cbn [List.length]. lia.
Qed.

Lemma walk_callback_shows :
  forall host block,
    shows_extractions block_subops (walk_callback target host) block.
Proof.
  intros host [args ops] s. unfold walk_callback, matchAndRewriteBlock.
  destruct (isa_AsyncExecuteOp host); cbn [fst snd].
  - split; [reflexivity |]. exists []. split; [reflexivity | constructor].
  - cbn [getOperations block_arguments].
    destruct (matchAndRewriteBlock_loop target ops [] (fst s) failure)
      as [[out rw'] r'] eqn:E.
    cbn [fst snd]. unfold block_subops. cbn [getOperations].
    split.
    + apply (loop_size _ _ _ _ E).
    + destruct (loop_created_not_empty _ _ _ _ _ E eq_refl)
        as (new & Hc & HF).
      exists new. split; [exact Hc |].
      eapply Forall_impl; [| exact HF].
      intros n (run & Hne & _ & _ & Hin). exists run.
      split; [exact Hne | apply in_flat_map_subops; exact Hin].
Qed.

Lemma walk_block_shows :
  forall host block,
    Forall (shows_extractions subops (walk target)) (getOperations block) ->
    shows_extractions block_subops (walk_block target (walk target) host)
      block.
Proof.
  intros host [args ops] HF s. cbn in HF.
  pose proof (mapM_shows HF s) as Hm.
  unfold walk_block.
  destruct (mapM (walk target) ops s) as [ops' s1] eqn:E1. cbn in Hm.
  pose proof (walk_callback_shows host (mkBlock args ops') s1) as Hc.
  pose proof (fun h => @walk_callback_covers target host (mkBlock args ops')
                         s1 h) as Hcov.
  destruct (walk_callback target host (mkBlock args ops') s1) as [b' s2].
  cbn [fst snd] in *.
  destruct Hm as (Lm & newm & Cm & Fm), Hc as (Lc & newc & Cc & Fc).
  unfold block_subops in *. cbn [getOperations] in *.
  split; [lia |].
  exists (newc ++ newm). split.
  - rewrite Cc, Cm, app_assoc. reflexivity.
  - apply Forall_app. split; [exact Fc |].
    eapply Forall_impl; [| exact Fm].
    intros n (run & Hne & Hin). exists run. split; [exact Hne |].
    apply Hcov. exact Hin.
Qed.

Lemma walk_shows : forall op, shows_extractions subops (walk target) op.
Proof.
  induction op as [i n o r regions IH] using Operation_nested_ind.
  assert (Hs : shows_extractions (flat_map (flat_map block_subops))
                 (mapM (mapM (walk_block target (walk target) n))) regions).
  { apply mapM_shows.
    eapply Forall_impl; [| exact IH].
    intros rg Hrg. apply mapM_shows.
    eapply Forall_impl; [| exact Hrg].
    intros b Hb. apply walk_block_shows. exact Hb. }
  intros s. rewrite walk_unfold. specialize (Hs s). cbn [fst snd].
  destruct (mapM (mapM (walk_block target (walk target) n)) regions s)
    as [regions' s'].
  cbn [fst snd] in *. destruct Hs as (L & new & C & F).
  rewrite !subops_unfold. cbn [List.length].
  split; [lia |].
  exists new. split; [exact C |].
  eapply Forall_impl; [| exact F].
  intros k (run & Hne & Hin). exists run. split; [exact Hne |].
  right. exact Hin.
Qed.

(** C4: one invocation on a function reports success if and only if the
    rewriter made at least one async.execute operation during it, in
    whichever block of the function.  Every operation it made stands in the
    returned function around a run that is not empty, and the returned
    function holds two operations more, a host and its terminator, for each
    of them; so the invocation reports success if and only if the function
    it returns differs from the one it was given.  When it reports failure,
    the function and the rewriter are exactly as they were. *)
Theorem matchAndRewrite_success_iff_extraction :
  forall (func_op : Operation) (rewriter : PatternRewriter),
    let result := fst (fst (matchAndRewrite target func_op rewriter)) in
    let func_op' := snd (fst (matchAndRewrite target func_op rewriter)) in
    let rewriter' := snd (matchAndRewrite target func_op rewriter) in
    (result = success <-> extractions rewriter < extractions rewriter')
    /\ (exists new,
          created rewriter' = new ++ created rewriter
          /\ Forall (fun n =>
                       exists run,
                         run <> [] /\ In (outlined n run) (subops func_op'))
                    new)
    /\ List.length (subops func_op')
       = List.length (subops func_op)
         + 2 * (extractions rewriter' - extractions rewriter)
    /\ (result = success <-> func_op' <> func_op)
    /\ (result = failure -> func_op' = func_op /\ rewriter' = rewriter).
Proof.
  intros func_op rw. unfold matchAndRewrite.
  pose proof (walk_quiet target func_op (rw, failure)) as Hq.
  pose proof (walk_shows func_op (rw, failure)) as Hsh.
  destruct (walk target func_op (rw, failure)) as [f' [rw' r']] eqn:E.
  cbn [fst snd] in *. destruct Hq as (Q1 & Q2 & Q3), Hsh as (L & new & C & F).
  assert (Hs : r' = success <-> extractions rw < extractions rw').
  { split.
    - intros ->. destruct (proj1 Q2 eq_refl) as [H | H];
        [discriminate | exact H].
    - intros H. destruct r'; [reflexivity |].
      assert (Hc : succeeded failure = true) by (apply Q2; right; exact H).
      discriminate. }
  assert (Hf : r' = failure -> f' = func_op /\ rw' = rw).
  { intros ->.
    assert (Heq : extractions rw' = extractions rw).
    { destruct (Nat.eq_dec (extractions rw') (extractions rw)) as [e | ne];
        [exact e |].
      assert (Hlt : extractions rw < extractions rw') by lia.
      apply Hs in Hlt. discriminate. }
    apply Q3 in Heq. inversion Heq; subst. split; reflexivity. }
  split; [exact Hs | split; [| split; [| split; [| exact Hf]]]].
  - exists new. split; [exact C | exact F].
  - lia.
  - split.
    + intros Hr Heq. apply Hs in Hr. rewrite Heq in L. lia.
    + intros Hne. destruct r'; [reflexivity |].
      destruct (Hf eq_refl) as [Heq _]. contradiction.
Qed.

End Shows.

Lemma matchAndRewrite_success_iff_extraction_witness :
  snd (fst (matchAndRewrite sample_target two_runs sample_rewriter))
    <> two_runs
  /\ snd (fst (matchAndRewrite sample_target trailing_run sample_rewriter))
     = trailing_run
  /\ snd (matchAndRewrite sample_target trailing_run sample_rewriter)
     = sample_rewriter.
Proof.
  split.
  - apply (proj1 (proj1 (proj2 (proj2 (proj2
             (matchAndRewrite_success_iff_extraction sample_target two_runs
                sample_rewriter)))))).
    reflexivity.
  - apply (proj2 (proj2 (proj2 (proj2
             (matchAndRewrite_success_iff_extraction sample_target
                trailing_run sample_rewriter))))).
    reflexivity.
Defined.

(** * Further properties *)

(** ** The scan and the transitions of a block *)

Section Transitions.

Variable target : ConversionTarget.

Lemma transitions_cons_illegal :
  forall a l,
    isLegal target a = false ->
    transitions target (a :: l) = transitions target l.
Proof.
  intros a [| b l] Ha; cbn.
  - reflexivity.
  - rewrite Ha. reflexivity.
Qed.

Lemma transitions_cons_legal_legal :
  forall a b l,
    isLegal target b = true ->
    transitions target (a :: b :: l) = transitions target (b :: l).
Proof.
  intros a b l Hb. cbn. rewrite Hb, andb_false_r. reflexivity.
Qed.

Lemma transitions_cons_le :
  forall a l, transitions target l <= transitions target (a :: l).
Proof. intros a [| b l]; cbn; lia. Qed.

Lemma transitions_all_legal :
  forall l, forallb (isLegal target) l = true -> transitions target l = 0.
Proof.
  induction l as [| a l IH]; intros H; [reflexivity |].
  cbn in H. apply andb_prop in H. destruct H as [Ha Hl].
  destruct l as [| b l]; [reflexivity |].
  cbn in Hl. apply andb_prop in Hl. destruct Hl as [Hb Hl'].
  rewrite transitions_cons_legal_legal by exact Hb.
  apply IH. cbn. rewrite Hb, Hl'. reflexivity.
Qed.

Lemma last_of_snoc : forall run op, last_of (run ++ [op]) = [op].
Proof. intros. unfold last_of. rewrite rev_unit. reflexivity. Qed.

Lemma last_of_legal :
  forall run,
    forallb (isLegal target) run = true ->
    last_of run = []
    \/ exists op, last_of run = [op] /\ isLegal target op = true.
Proof.
  intros run H. unfold last_of.
  destruct (rev run) as [| op l] eqn:E; [left; reflexivity | right].
  exists op. split; [reflexivity |].
  rewrite forallb_forall in H. apply H.
  apply in_rev. rewrite E. left. reflexivity.
Qed.

Lemma last_of_cons :
  forall a run, exists op, last_of (a :: run) = [op].
Proof.
  intros a run. unfold last_of.
  destruct (rev (a :: run)) as [| op l] eqn:E.
  - apply (f_equal (@List.length Operation)) in E.
    rewrite length_rev in E. discriminate.
  - exists op. reflexivity.
Qed.

(** The scan extracts once per transition; an open run counts through its
    last operation. *)
Lemma loop_counts :
  forall ops legal_begin rewriter result out rewriter' result',
    matchAndRewriteBlock_loop target ops legal_begin rewriter result
      = (out, rewriter', result') ->
    forallb (isLegal target) legal_begin = true ->
    extractions rewriter'
      = extractions rewriter + transitions target (last_of legal_begin ++ ops)
    /\ fresh rewriter'
       = fresh rewriter
         + 2 * transitions target (last_of legal_begin ++ ops).
Proof.
  induction ops as [| op rest IH]; intros lb rw r out rw' r' H Hlb; cbn in H.
  - injection H as <- <- <-. rewrite app_nil_r.
    assert (Ht : transitions target (last_of lb) = 0).
    { destruct (last_of_legal lb Hlb) as [-> | (x & -> & _)]; reflexivity. }
    rewrite Ht. lia.
  - destruct (isLegal target op) eqn:Hop.
    + apply IH in H.
      2: { rewrite forallb_app, Hlb. cbn. rewrite Hop. reflexivity. }
      rewrite last_of_snoc in H. cbn [app] in H.
      destruct (last_of_legal lb Hlb) as [-> | (x & -> & _)].
      * exact H.
      * cbn [app]. rewrite transitions_cons_legal_legal by exact Hop.
        exact H.
    + destruct lb as [| a lb].
      * destruct (matchAndRewriteBlock_loop target rest [] rw r)
          as [[out0 rw0] r0] eqn:E.
        inversion H; subst; clear H.
        apply IH in E; [| reflexivity].
        cbn [last_of rev app] in *.
        rewrite transitions_cons_illegal by exact Hop. exact E.
      * destruct (matchAndRewriteBlock_loop target rest [] _ success)
          as [[out0 rw0] r0] eqn:E.
        inversion H; subst; clear H.
        apply IH in E; [| reflexivity].
        cbn [last_of rev app] in E. unfold extractions in *. cbn in E.
        destruct (last_of_legal (a :: lb) Hlb) as [Hl | (x & Hl & Hx)].
        -- destruct (last_of_cons a lb) as (y & Hy). congruence.
        -- rewrite Hl. cbn [app].
           assert (Ht : transitions target (x :: op :: rest)
                        = 1 + transitions target rest).
           { change (transitions target (x :: op :: rest))
               with ((if isLegal target x && negb (isLegal target op)
                      then 1 else 0)
                     + transitions target (op :: rest)).
             rewrite Hx, Hop, transitions_cons_illegal by exact Hop.
             reflexivity. }
           rewrite Ht. lia.
Qed.

(** X1: the scan of a block makes exactly one async.execute operation for
    each place where a legal operation is directly followed by an illegal
    one, taking two operation numbers for each, and it reports success if
    and only if the block has such a place. *)
Theorem scan_extracts_once_per_transition :
  forall block rewriter block' rewriter' result,
    matchAndRewriteBlock target block rewriter = (block', rewriter', result) ->
    extractions rewriter'
      = extractions rewriter + transitions target (getOperations block)
    /\ fresh rewriter'
       = fresh rewriter + 2 * transitions target (getOperations block)
    /\ (result = success <-> 0 < transitions target (getOperations block)).
Proof.
  intros block rw block' rw' r H. unfold matchAndRewriteBlock in H.
  destruct (matchAndRewriteBlock_loop target (getOperations block) [] rw
              failure) as [[out w] s] eqn:E.
  inversion H; subst; clear H.
  destruct (loop_counts _ _ _ _ E eq_refl) as [Hc Hf]. cbn [last_of rev app] in *.
  destruct (loop_quiet _ _ _ _ _ E) as (_ & Q2 & _).
  split; [exact Hc | split; [exact Hf |]].
  split.
  - intros ->. destruct (proj1 Q2 eq_refl) as [X | X]; [discriminate | lia].
  - intros Hpos. destruct r; [reflexivity |].
    assert (Hs : succeeded failure = true) by (apply Q2; right; lia).
    discriminate.
Qed.

(** A block without transitions is left alone. *)
Lemma scan_without_transition :
  forall ops rewriter result,
    transitions target ops = 0 ->
    matchAndRewriteBlock_loop target ops [] rewriter result
    = (ops, rewriter, result).
Proof.
  intros ops rw r Ht.
  destruct (matchAndRewriteBlock_loop target ops [] rw r)
    as [[out rw'] r'] eqn:E.
  destruct (loop_counts _ _ _ _ E eq_refl) as [Hc _].
  cbn [last_of rev app] in Hc. rewrite Ht in Hc.
  destruct (loop_quiet _ _ _ _ _ E) as (_ & Q2 & Q3).
  assert (Heq : extractions rw' = extractions rw) by lia.
  destruct (Q3 Heq) as [-> ->]. cbn [app].
  f_equal. destruct r, r'; try reflexivity.
  - discriminate (proj2 Q2 (or_introl eq_refl)).
  - destruct (proj1 Q2 eq_refl) as [X | X]; [discriminate | lia].
Qed.

(** When async.execute operations are not legal, the scan leaves no
    transition behind. *)
Lemma loop_settled :
  (forall op, op_name op = AsyncExecuteOp -> isLegal target op = false) ->
  forall ops legal_begin rewriter result out rewriter' result',
    matchAndRewriteBlock_loop target ops legal_begin rewriter result
      = (out, rewriter', result') ->
    forallb (isLegal target) legal_begin = true ->
    transitions target out = 0.
Proof.
  intros Hasync.
  induction ops as [| op rest IH]; intros lb rw r out rw' r' H Hlb; cbn in H.
  - injection H as <- <- <-. apply transitions_all_legal. exact Hlb.
  - destruct (isLegal target op) eqn:Hop.
    + eapply IH; [exact H |].
      rewrite forallb_app, Hlb. cbn. rewrite Hop. reflexivity.
    + destruct lb as [| a lb].
      * destruct (matchAndRewriteBlock_loop target rest [] rw r)
          as [[out0 rw0] r0] eqn:E.
        inversion H; subst; clear H.
        rewrite transitions_cons_illegal by exact Hop.
        eapply IH; [exact E | reflexivity].
      * destruct (matchAndRewriteBlock_loop target rest [] _ success)
          as [[out0 rw0] r0] eqn:E.
        inversion H; subst; clear H.
        rewrite transitions_cons_illegal by (apply Hasync; reflexivity).
        rewrite transitions_cons_illegal by exact Hop.
        eapply IH; [exact E | reflexivity].
Qed.

(** X2: when the target does not deem async.execute operations legal, a
    scanned block is a fixed point of the scan: scanning it again, with any
    rewriter, reports failure and changes neither the block nor the
    rewriter. *)
Theorem scan_is_idempotent :
  (forall op, op_name op = AsyncExecuteOp -> isLegal target op = false) ->
  forall block rewriter block' rewriter' result,
    matchAndRewriteBlock target block rewriter = (block', rewriter', result) ->
    forall rewriter2,
      matchAndRewriteBlock target block' rewriter2
      = (block', rewriter2, failure).
Proof.
  intros Hasync block rw block' rw' r H rw2.
  unfold matchAndRewriteBlock in *.
  destruct (matchAndRewriteBlock_loop target (getOperations block) [] rw
              failure) as [[out w] s] eqn:E.
  inversion H; subst; clear H. cbn [getOperations block_arguments].
  rewrite scan_without_transition; [reflexivity |].
  eapply loop_settled; [exact Hasync | exact E | reflexivity].
Qed.

(** When async.execute operations are legal, an extraction leaves a
    transition behind: the new operation in front of the illegal one. *)
Lemma loop_leaves_transition :
  (forall op, op_name op = AsyncExecuteOp -> isLegal target op = true) ->
  forall ops legal_begin rewriter result out rewriter' result',
    matchAndRewriteBlock_loop target ops legal_begin rewriter result
      = (out, rewriter', result') ->
    extractions rewriter < extractions rewriter' ->
    0 < transitions target out.
Proof.
  intros Hasync.
  induction ops as [| op rest IH]; intros lb rw r out rw' r' H Hlt; cbn in H.
  - inversion H; subst. lia.
  - destruct (isLegal target op) eqn:Hop.
    + eapply IH; [exact H | exact Hlt].
    + destruct lb as [| a lb].
      * destruct (matchAndRewriteBlock_loop target rest [] rw r)
          as [[out0 rw0] r0] eqn:E.
        inversion H; subst; clear H.
        pose proof (transitions_cons_le op out0) as Hle.
        specialize (IH _ _ _ _ _ _ E Hlt). lia.
      * destruct (matchAndRewriteBlock_loop target rest [] _ success)
          as [[out0 rw0] r0] eqn:E.
        inversion H; subst; clear H.
        match goal with
        | |- 0 < transitions target (?e :: op :: out0) =>
            change (transitions target (e :: op :: out0))
              with ((if isLegal target e && negb (isLegal target op)
                     then 1 else 0)
                    + transitions target (op :: out0));
            rewrite (Hasync e eq_refl), Hop
        end.
        cbn. lia.
Qed.

(** X4: when the target deems async.execute operations legal, the scan
    never settles: after a scan that reported success, every further scan
    of the block reports success again, wrapping the operation made
    before. *)
Theorem scan_rewraps_legal_regions :
  (forall op, op_name op = AsyncExecuteOp -> isLegal target op = true) ->
  forall block rewriter block' rewriter',
    matchAndRewriteBlock target block rewriter = (block', rewriter', success) ->
    forall rewriter2,
      snd (matchAndRewriteBlock target block' rewriter2) = success.
Proof.
  intros Hasync block rw block' rw' H rw2.
  unfold matchAndRewriteBlock in *.
  destruct (matchAndRewriteBlock_loop target (getOperations block) [] rw
              failure) as [[out w] s] eqn:E.
  inversion H; subst; clear H. cbn [getOperations block_arguments].
  destruct (loop_quiet _ _ _ _ _ E) as (_ & Q2 & _).
  assert (Hlt : extractions rw < extractions rw').
  { destruct (proj1 Q2 eq_refl) as [X | X]; [discriminate | exact X]. }
  pose proof (loop_leaves_transition Hasync _ _ _ _ E Hlt) as Hpos.
  destruct (matchAndRewriteBlock_loop target out [] rw2 failure)
    as [[out2 w2] s2] eqn:E2.
  cbn [snd].
  destruct (loop_counts _ _ _ _ E2 eq_refl) as [Hc _].
  cbn [last_of rev app] in Hc.
  destruct (loop_quiet _ _ _ _ _ E2) as (_ & Q2' & _).
  destruct s2; [reflexivity |].
  assert (Hs : succeeded failure = true) by (apply Q2'; right; lia).
  discriminate.
Qed.

End Transitions.

Lemma scan_extracts_once_per_transition_witness :
  extractions (mkRewriter 104 [102; 100])
    = extractions sample_rewriter
      + transitions sample_target
          [legal_op 1; illegal_op 2; legal_op 3; legal_op 4; illegal_op 5;
           legal_op 6]
  /\ 104 = 100 + 2 * 2
  /\ (success = success
      <-> 0 < transitions sample_target
                [legal_op 1; illegal_op 2; legal_op 3; legal_op 4;
                 illegal_op 5; legal_op 6]).
Proof.
  apply (@scan_extracts_once_per_transition sample_target
           (mkBlock [] [legal_op 1; illegal_op 2; legal_op 3; legal_op 4;
                        illegal_op 5; legal_op 6])
           sample_rewriter
           (mkBlock [] [outlined 100 [legal_op 1]; illegal_op 2;
                        outlined 102 [legal_op 3; legal_op 4]; illegal_op 5;
                        legal_op 6])
           (mkRewriter 104 [102; 100]) success).
  reflexivity.
Defined.

Lemma sample_target_async_illegal :
  forall op, op_name op = AsyncExecuteOp -> isLegal sample_target op = false.
Proof. intros op H. unfold isLegal. rewrite H. reflexivity. Qed.

Lemma rewrapping_target_async_legal :
  forall op, op_name op = AsyncExecuteOp -> isLegal rewrapping_target op = true.
Proof. intros op H. unfold isLegal. rewrite H. reflexivity. Qed.

Lemma scan_is_idempotent_witness :
  matchAndRewriteBlock sample_target
    (mkBlock [] [outlined 100 [legal_op 1; legal_op 2]; illegal_op 3;
                 legal_op 4])
    (mkRewriter 200 [])
  = (mkBlock [] [outlined 100 [legal_op 1; legal_op 2]; illegal_op 3;
                 legal_op 4],
     mkRewriter 200 [], failure).
Proof.
  apply (@scan_is_idempotent sample_target sample_target_async_illegal
           (mkBlock [] [legal_op 1; legal_op 2; illegal_op 3; legal_op 4])
           sample_rewriter
           (mkBlock [] [outlined 100 [legal_op 1; legal_op 2]; illegal_op 3;
                        legal_op 4])
           (mkRewriter 102 [100]) success).
  reflexivity.
Defined.

Lemma scan_rewraps_legal_regions_witness :
  snd (matchAndRewriteBlock rewrapping_target
         (mkBlock [] [outlined 100 [legal_op 1]; illegal_op 2])
         (mkRewriter 102 [100]))
  = success.
Proof.
  apply (@scan_rewraps_legal_regions rewrapping_target
           rewrapping_target_async_legal
           (mkBlock [] [legal_op 1; illegal_op 2]) sample_rewriter
           (mkBlock [] [outlined 100 [legal_op 1]; illegal_op 2])
           (mkRewriter 102 [100])).
  reflexivity.
Defined.

(** ** A second invocation on a function *)

Section Settled.

Variable target : ConversionTarget.

Hypothesis async_not_legal :
  forall op, op_name op = AsyncExecuteOp -> isLegal target op = false.

Lemma mapM_unchanged :
  forall (A : Type) (f : A -> WalkState -> A * WalkState) (l : list A),
    Forall (unchanged_by f) l -> unchanged_by (mapM f) l.
Proof.
  intros A f l HF. induction HF as [| a l Ha _ IH]; intros s; cbn.
  - reflexivity.
  - rewrite (Ha s), (IH s). reflexivity.
Qed.

Lemma mapM_Forall_out :
  forall (A : Type) (f : A -> WalkState -> A * WalkState) (P : A -> Prop)
         (l : list A),
    Forall (fun a => forall s, P (fst (f a s))) l ->
    forall s, Forall P (fst (mapM f l s)).
Proof.
  intros A f P l HF. induction HF as [| a l Ha _ IH]; intros s; cbn.
  - constructor.
  - specialize (Ha s). destruct (f a s) as [a' s1].
    specialize (IH s1). destruct (mapM f l s1) as [l' s2].
    cbn in *. constructor; assumption.
Qed.

(** What stands in a scanned block: operations of the block, and new
    operations around operations of the block. *)
Lemma loop_members :
  forall ops legal_begin rewriter result out rewriter' result',
    matchAndRewriteBlock_loop target ops legal_begin rewriter result
      = (out, rewriter', result') ->
    forall x,
      In x out ->
      In x (legal_begin ++ ops)
      \/ exists n run, x = outlined n run /\ incl run (legal_begin ++ ops).
Proof.
  induction ops as [| op rest IH]; intros lb rw r out rw' r' H x Hx;
    cbn in H.
  - injection H as <- <- <-. left. rewrite app_nil_r. exact Hx.
  - destruct (isLegal target op).
    + destruct (IH _ _ _ _ _ _ H x Hx) as [Hin | (n & run & -> & Hincl)].
      * left. rewrite <- app_assoc in Hin. exact Hin.
      * right. exists n, run. split; [reflexivity |].
        rewrite <- app_assoc in Hincl. exact Hincl.
    + destruct lb as [| a lb].
      * destruct (matchAndRewriteBlock_loop target rest [] rw r)
          as [[out0 rw0] r0] eqn:E.
        injection H as <- <- <-.
        destruct Hx as [<- | Hx]; [left; left; reflexivity |].
        destruct (IH _ _ _ _ _ _ E x Hx) as [Hin | (n & run & -> & Hincl)].
        -- left. right. exact Hin.
        -- right. exists n, run. split; [reflexivity |].
           intros y Hy. right. apply Hincl. exact Hy.
      * destruct (matchAndRewriteBlock_loop target rest [] _ success)
          as [[out0 rw0] r0] eqn:E.
        injection H as <- <- <-.
        destruct Hx as [<- | [<- | Hx]].
        -- right. exists (fresh rw), (a :: lb). split; [reflexivity |].
           intros y Hy. apply in_or_app. left. exact Hy.
        -- left. apply in_or_app. right. left. reflexivity.
        -- destruct (IH _ _ _ _ _ _ E x Hx) as [Hin | (n & run & -> & Hincl)].
           ++ left. apply in_or_app. right. right. exact Hin.
           ++ right. exists n, run. split; [reflexivity |].
              intros y Hy. apply in_or_app. right. right.
              apply Hincl. exact Hy.
Qed.

(** The walk neither scans nor changes the body of a new operation whose
    run it does not change. *)
Lemma outlined_unchanged :
  forall n run,
    Forall (unchanged_by (walk target)) run ->
    unchanged_by (walk target) (outlined n run).
Proof.
  intros n run HF s. unfold outlined. rewrite walk_unfold. cbn.
  assert (HF' : Forall (unchanged_by (walk target))
                  (run ++ [AsyncExecuteOp_terminator n])).
  { apply Forall_app. split; [exact HF |].
    constructor; [| constructor]. intros s0. reflexivity. }
  rewrite (mapM_unchanged HF' s). reflexivity.
Qed.

Lemma walk_block_unchanged :
  forall host args ops,
    Forall (unchanged_by (walk target)) ops ->
    isa_AsyncExecuteOp host = true \/ transitions target ops = 0 ->
    unchanged_by (walk_block target (walk target) host) (mkBlock args ops).
Proof.
  intros host args ops HF Hcase s. unfold walk_block.
  rewrite (mapM_unchanged HF s). unfold walk_callback.
  destruct (isa_AsyncExecuteOp host) eqn:Hh; [reflexivity |].
  destruct Hcase as [Hc | Ht]; [discriminate |].
  unfold matchAndRewriteBlock. cbn [getOperations block_arguments].
  rewrite scan_without_transition by exact Ht.
  destruct s. reflexivity.
Qed.

Lemma walk_block_output_unchanged :
  forall host block,
    Forall (fun op => forall s,
                unchanged_by (walk target) (fst (walk target op s)))
           (getOperations block) ->
    forall s,
      unchanged_by (walk_block target (walk target) host)
                   (fst (walk_block target (walk target) host block s)).
Proof.
  intros host [args ops] HF s. cbn in HF. unfold walk_block at 2.
  pose proof (@mapM_Forall_out Operation (walk target)
                (unchanged_by (walk target)) ops HF s) as Hout.
  destruct (mapM (walk target) ops s) as [ops' s1]. cbn in Hout.
  unfold walk_callback.
  destruct (isa_AsyncExecuteOp host) eqn:Hh; cbn [fst].
  - apply walk_block_unchanged; [exact Hout | left; exact Hh].
  - unfold matchAndRewriteBlock. cbn [getOperations block_arguments].
    destruct (matchAndRewriteBlock_loop target ops' [] (fst s1) failure)
      as [[out rw'] r'] eqn:E.
    cbn [fst].
    apply walk_block_unchanged.
    + apply Forall_forall. intros x Hx.
      destruct (loop_members _ _ _ _ E x Hx) as [Hin | (n & run & -> & Hincl)].
      * rewrite Forall_forall in Hout. apply Hout. exact Hin.
      * apply outlined_unchanged. apply Forall_forall. intros y Hy.
        rewrite Forall_forall in Hout. apply Hout. apply Hincl. exact Hy.
    + right. eapply loop_settled; [exact async_not_legal | exact E |].
      reflexivity.
Qed.

Lemma walk_output_unchanged :
  forall op s, unchanged_by (walk target) (fst (walk target op s)).
Proof.
  induction op as [i n o r regions IH] using Operation_nested_ind.
  intros s s2. rewrite walk_unfold. cbn [fst]. rewrite walk_unfold.
  assert (Hr : unchanged_by (mapM (mapM (walk_block target (walk target) n)))
                 (fst (mapM (mapM (walk_block target (walk target) n))
                            regions s))).
  { apply mapM_unchanged. apply mapM_Forall_out.
    eapply Forall_impl; [| exact IH].
    intros rg Hrg s0. apply mapM_unchanged. apply mapM_Forall_out.
    eapply Forall_impl; [| exact Hrg].
    intros b Hb s1. apply walk_block_output_unchanged. exact Hb. }
  rewrite (Hr s2). reflexivity.
Qed.

(** X3: when the target does not deem async.execute operations legal, the
    function an invocation of the outliner returns is a fixed point: a
    further invocation on it, with any rewriter, reports failure and
    returns the function and the rewriter as they are. *)
Theorem matchAndRewrite_is_idempotent :
  forall (func_op : Operation) (rewriter rewriter2 : PatternRewriter),
    matchAndRewrite target
      (snd (fst (matchAndRewrite target func_op rewriter))) rewriter2
    = (failure, snd (fst (matchAndRewrite target func_op rewriter)),
       rewriter2).
Proof.
  intros func_op rw rw2. unfold matchAndRewrite at 2 3.
  pose proof (walk_output_unchanged func_op (rw, failure) (rw2, failure))
    as Hu.
  destruct (walk target func_op (rw, failure)) as [f' [rw' r']].
  cbn [fst snd] in *. unfold matchAndRewrite. rewrite Hu. reflexivity.
Qed.

End Settled.

Lemma matchAndRewrite_is_idempotent_witness :
  matchAndRewrite sample_target
    (snd (fst (matchAndRewrite sample_target two_runs sample_rewriter)))
    (mkRewriter 104 [102; 100])
  = (failure,
     snd (fst (matchAndRewrite sample_target two_runs sample_rewriter)),
     mkRewriter 104 [102; 100]).
Proof.
  apply (@matchAndRewrite_is_idempotent sample_target
           sample_target_async_illegal two_runs sample_rewriter
           (mkRewriter 104 [102; 100])).
Defined.

(** ** Calls and the outliner *)

(** X5: [populateGpuAsyncConversionPatterns] changes the legality of
    tfrt.call operations only, and under the target it sets up the scan of
    a block never takes a call that has results into a run: no such call
    stands directly in the run of an async.execute operation the scan
    creates.  The scan does not look into the regions of the operations of
    a run, which move along with them. *)
Theorem calls_with_results_stay_outside :
  forall (target : ConversionTarget),
    (forall op,
        op_name op <> CallOp ->
        isLegal (populateGpuAsyncConversionPatterns_target target) op
        = isLegal target op)
    /\ forall block rewriter block' rewriter' result,
         matchAndRewriteBlock
           (populateGpuAsyncConversionPatterns_target target) block rewriter
           = (block', rewriter', result) ->
         exists new,
           created rewriter' = new ++ created rewriter
           /\ Forall (fun n =>
                        exists run,
                          In (outlined n run) (getOperations block')
                          /\ Forall (fun op => call_with_results op = false)
                                    run) new.
Proof.
  intros target. split.
  - intros op Hname. unfold isLegal, populateGpuAsyncConversionPatterns_target,
      addDynamicallyLegalOp.
    destruct (op_name op); try reflexivity. contradiction.
  - intros block rw block' rw' r H. unfold matchAndRewriteBlock in H.
    destruct (matchAndRewriteBlock_loop _ (getOperations block) [] rw failure)
      as [[out w] s] eqn:E.
    injection H as <- <- <-.
    destruct (loop_created_not_empty _ _ _ _ _ E eq_refl) as (new & Hc & HF).
    exists new. split; [exact Hc |].
    eapply Forall_impl; [| exact HF].
    intros n (run & _ & Hleg & _ & Hin). exists run. split; [exact Hin |].
    apply Forall_forall. intros op Hop.
    rewrite forallb_forall in Hleg. specialize (Hleg op Hop).
    unfold call_with_results.
    unfold isLegal, populateGpuAsyncConversionPatterns_target,
      addDynamicallyLegalOp in Hleg.
    destruct (op_name op); try reflexivity.
    cbn in Hleg. apply Nat.eqb_eq in Hleg. rewrite Hleg. reflexivity.
Qed.

Lemma calls_with_results_stay_outside_witness :
  exists new,
    [100] = new ++ []
    /\ Forall (fun n =>
                 exists run,
                   In (outlined n run)
                      [mkOp 1 CallOp [] [ChainType] [];
                       outlined 100 [mkOp 2 CallOp [] [] []];
                       illegal_op 3]
                   /\ Forall (fun op => call_with_results op = false) run)
              new.
Proof.
  apply (proj2 (calls_with_results_stay_outside sample_target)
           (mkBlock [] [mkOp 1 CallOp [] [ChainType] [];
                        mkOp 2 CallOp [] [] []; illegal_op 3])
           sample_rewriter
           (mkBlock [] [mkOp 1 CallOp [] [ChainType] [];
                        outlined 100 [mkOp 2 CallOp [] [] []];
                        illegal_op 3])
           (mkRewriter 102 [100]) success).
  reflexivity.
Defined.

(** ** Byte sizes, exactly *)

Lemma to_unsigned_bounds : forall z, (0 <= to_unsigned z < 2 ^ 32)%Z.
Proof. intros z. unfold to_unsigned. apply Z.mod_pos_bound. lia. Qed.

Lemma to_unsigned_mul_l :
  forall a b, to_unsigned (to_unsigned a * b) = to_unsigned (a * b).
Proof. intros a b. unfold to_unsigned. apply Zmult_mod_idemp_l. Qed.

Lemma to_unsigned_small :
  forall z, (0 <= z < 2 ^ 32)%Z -> to_unsigned z = z.
Proof. intros z H. unfold to_unsigned. apply Z.mod_small. exact H. Qed.

Lemma GetTypeSizeBytes_bounds :
  forall type n, GetTypeSizeBytes type = Some n -> (0 <= n < 2 ^ 32)%Z.
Proof.
  intros type n H.
  destruct type; cbn in H; try discriminate.
  - injection H as <-. apply to_unsigned_bounds.
  - injection H as <-. apply to_unsigned_bounds.
  - destruct (GetTypeSizeBytes type); [| discriminate].
    injection H as <-. apply to_unsigned_bounds.
  - destruct (GetTypeSizeBytes type); [| discriminate].
    injection H as <-. apply to_unsigned_bounds.
Qed.

(** X6: whatever the type, a byte size that is returned lies between 0 and
    2^32 - 1; and when the bit widths of the scalars are unsigned numbers
    that leave room for the rounding, it is the exact byte size (rounded-up
    bytes of the scalar, times 2 for a complex number, times the number of
    elements) modulo 2^32. *)
Theorem GetTypeSizeBytes_is_exact_size_mod_2_32 :
  forall type,
    (forall n, GetTypeSizeBytes type = Some n -> (0 <= n < 2 ^ 32)%Z)
    /\ (widths_in_range type = true ->
        GetTypeSizeBytes type = option_map to_unsigned (exact_size type)).
Proof.
  intros type. split; [apply GetTypeSizeBytes_bounds |].
  induction type as [w s | w | | e IH | e IH shape | | | | name]; cbn;
    intros H; try reflexivity.
  - apply andb_prop in H. destruct H as [H0 H1].
    apply Z.leb_le in H0. apply Z.ltb_lt in H1.
    rewrite (@to_unsigned_small (w + 7)%Z)
      by (change (2 ^ 32)%Z with 4294967296%Z; lia).
    reflexivity.
  - apply andb_prop in H. destruct H as [H0 H1].
    apply Z.leb_le in H0. apply Z.ltb_lt in H1.
    rewrite (@to_unsigned_small (w + 7)%Z)
      by (change (2 ^ 32)%Z with 4294967296%Z; lia).
    reflexivity.
  - rewrite (IH H). destruct (exact_size e) as [n |]; cbn; [| reflexivity].
    rewrite to_unsigned_mul_l. reflexivity.
  - rewrite (IH H). destruct (exact_size e) as [n |]; cbn; [| reflexivity].
    rewrite to_unsigned_mul_l. reflexivity.
Qed.

Lemma GetTypeSizeBytes_is_exact_size_mod_2_32_witness :
  GetTypeSizeBytes huge_memref = option_map to_unsigned (exact_size huge_memref).
Proof.
  apply (proj2 (GetTypeSizeBytes_is_exact_size_mod_2_32 huge_memref)).
  reflexivity.
Defined.

Lemma getNumElements_app :
  forall s1 s2,
    getNumElements (s1 ++ s2) = (getNumElements s1 * getNumElements s2)%Z.
Proof.
  unfold getNumElements.
  induction s1 as [| d s1 IH]; intros s2; cbn [app fold_right].
  - rewrite Z.mul_1_l. reflexivity.
  - rewrite IH. rewrite Z.mul_assoc. reflexivity.
Qed.

Lemma getNumElements_Permutation :
  forall s1 s2, Permutation s1 s2 -> getNumElements s1 = getNumElements s2.
Proof.
  intros s1 s2 HP. unfold getNumElements.
  induction HP; cbn [fold_right].
  - reflexivity.
  - rewrite IHHP. reflexivity.
  - rewrite !Z.mul_assoc, (Z.mul_comm y x). reflexivity.
  - congruence.
Qed.

Lemma getNumElements_zero :
  forall shape, In 0%Z shape -> getNumElements shape = 0%Z.
Proof.
  unfold getNumElements.
  induction shape as [| d shape IH]; intros H; [contradiction |].
  cbn [fold_right]. destruct H as [-> | H]; [reflexivity |].
  rewrite (IH H). apply Z.mul_0_r.
Qed.

(** X7: how shapes enter the byte size.  A composite of a composite has the
    size of the composite with the two shapes joined; the order of the
    dimensions does not matter; a composite without dimensions has the size
    of its element; and one dimension 0 makes the size 0, provided the
    element type has a size at all. *)
Theorem GetTypeSizeBytes_of_shapes :
  forall (element : MlirType) (s1 s2 : list Z),
    GetTypeSizeBytes (ShapedType (ShapedType element s1) s2)
    = GetTypeSizeBytes (ShapedType element (s1 ++ s2))
    /\ (Permutation s1 s2 ->
        GetTypeSizeBytes (ShapedType element s1)
        = GetTypeSizeBytes (ShapedType element s2))
    /\ GetTypeSizeBytes (ShapedType element []) = GetTypeSizeBytes element
    /\ (In 0%Z s1 -> supported element = true ->
        GetTypeSizeBytes (ShapedType element s1) = Some 0%Z).
Proof.
  intros element s1 s2. cbn.
  destruct (GetTypeSizeBytes element) as [n |] eqn:E.
  - split; [| split; [| split]].
    + rewrite to_unsigned_mul_l, getNumElements_app, Z.mul_assoc.
      reflexivity.
    + intros HP. rewrite (getNumElements_Permutation HP). reflexivity.
    + cbn. rewrite Z.mul_1_r, to_unsigned_small; [reflexivity |].
      apply (GetTypeSizeBytes_bounds element). exact E.
    + intros H0 _. rewrite (getNumElements_zero _ H0), Z.mul_0_r.
      reflexivity.
  - split; [reflexivity | split; [reflexivity | split; [reflexivity |]]].
    intros _ Hs. apply GetTypeSizeBytes_supported in Hs.
    destruct Hs as [n Hn]. congruence.
Qed.

Lemma GetTypeSizeBytes_of_shapes_witness :
  GetTypeSizeBytes (ShapedType (FloatType 32) [2%Z; 3%Z; 4%Z])
  = GetTypeSizeBytes (ShapedType (FloatType 32) [4%Z; 2%Z; 3%Z])
  /\ GetTypeSizeBytes (ShapedType (FloatType 32) [2%Z; 0%Z; 4%Z]) = Some 0%Z.
Proof.
  destruct (GetTypeSizeBytes_of_shapes (FloatType 32) [2%Z; 3%Z; 4%Z]
              [4%Z; 2%Z; 3%Z]) as (_ & Hperm & _ & _).
  destruct (GetTypeSizeBytes_of_shapes (FloatType 32) [2%Z; 0%Z; 4%Z] [])
    as (_ & _ & _ & Hzero).
  split.
  - apply Hperm.
    apply Permutation_sym.
    apply (Permutation_cons_app [2%Z; 3%Z] [] 4%Z).
    rewrite app_nil_r. apply Permutation_refl.
  - apply Hzero; [right; left; reflexivity | reflexivity].
Defined.

(** ** More on the view pattern *)

Module ViewFacts.
Import Conversion.

(** X8: the view pattern looks at the operands before it looks at the
    types.  It reports "expected BufferType source" exactly when the
    converted source is no buffer, "expected no sizes" exactly when the
    source is a buffer and there are size operands, and it runs into the
    abort of the byte-size computation exactly when the source is a buffer,
    there are no size operands and the destination type or the source type
    has no byte size.  A view it declines never aborts. *)
Theorem view_failures_and_abort :
  forall (view_op : ViewOp) (adaptor : ViewOpAdaptor),
    (FoldMemrefViewPattern_matchAndRewrite view_op adaptor
       = Some (notifyMatchFailure "expected BufferType source")
     <-> isa_BufferType (getType (adaptor_source adaptor)) = false)
    /\ (FoldMemrefViewPattern_matchAndRewrite view_op adaptor
          = Some (notifyMatchFailure "expected no sizes")
        <-> isa_BufferType (getType (adaptor_source adaptor)) = true
            /\ adaptor_sizes adaptor <> [])
    /\ (FoldMemrefViewPattern_matchAndRewrite view_op adaptor = None
        <-> isa_BufferType (getType (adaptor_source adaptor)) = true
            /\ adaptor_sizes adaptor = []
            /\ (supported (view_getType view_op) = false
                \/ supported (getType (view_source view_op)) = false)).
Proof.
  intros [vsrc vshift vsizes vty] [asrc ashift asizes]; cbn.
  unfold FoldMemrefViewPattern_matchAndRewrite; cbn.
  pose proof (GetTypeSizeBytes_supported vty) as Hd.
  pose proof (GetTypeSizeBytes_supported (getType vsrc)) as Hs.
  destruct (isa_BufferType (getType asrc)); cbn.
  2: { split; [split; [reflexivity | reflexivity] |].
       split; split; try discriminate.
       - intros [H _]; discriminate.
       - intros [H _]; discriminate. }
  destruct asizes as [| sz asizes]; cbn.
  2: { split; [split; discriminate |].
       split; [split; [intros _; split; [reflexivity | discriminate]
                      | reflexivity] |].
       split; [discriminate | intros (_ & H & _); discriminate]. }
  destruct (GetTypeSizeBytes vty) as [dst |].
  2: { split; [split; discriminate |].
       split; [split; [discriminate | intros [_ H]; contradiction] |].
       split; [| reflexivity].
       intros _. split; [reflexivity | split; [reflexivity |]].
       left. destruct (supported vty); [| reflexivity].
       destruct (proj1 Hd eq_refl) as [n Hn]. discriminate. }
  destruct (GetTypeSizeBytes (getType vsrc)) as [src |].
  2: { split; [split; discriminate |].
       split; [split; [discriminate | intros [_ H]; contradiction] |].
       split; [| reflexivity].
       intros _. split; [reflexivity | split; [reflexivity |]].
       right. destruct (supported (getType vsrc)); [| reflexivity].
       destruct (proj1 Hs eq_refl) as [n Hn]. discriminate. }
  assert (Hdt : supported vty = true) by (apply Hd; eexists; reflexivity).
  assert (Hst : supported (getType vsrc) = true)
    by (apply Hs; eexists; reflexivity).
  destruct (match getDefiningOp_ConstantIndexOp ashift with
            | Some value => (value =? 0)%Z
            | None => false
            end && (src =? dst)%Z).
  - split; [split; discriminate |].
    split; [split; [discriminate | intros [_ H]; contradiction] |].
    split; [discriminate |].
    intros (_ & _ & [H | H]); congruence.
  - split; [split; discriminate |].
    split; [split; [discriminate | intros [_ H]; contradiction] |].
    split; [discriminate |].
    intros (_ & _ & [H | H]); congruence.
Qed.

(** X9: the view pattern compares byte sizes modulo 2^32.  With a buffer
    source, no size operands and the constant offset 0, a view is folded
    whenever the exact byte sizes of the destination type and of the source
    type leave the same remainder modulo 2^32, also when they differ. *)
Theorem view_folds_on_sizes_equal_mod_2_32 :
  forall (view_op : ViewOp) (adaptor : ViewOpAdaptor) (dst src : Z),
    isa_BufferType (getType (adaptor_source adaptor)) = true ->
    adaptor_sizes adaptor = [] ->
    getDefiningOp_ConstantIndexOp (adaptor_byte_shift adaptor) = Some 0%Z ->
    widths_in_range (view_getType view_op) = true ->
    widths_in_range (getType (view_source view_op)) = true ->
    exact_size (view_getType view_op) = Some dst ->
    exact_size (getType (view_source view_op)) = Some src ->
    (dst mod 2 ^ 32 = src mod 2 ^ 32)%Z ->
    FoldMemrefViewPattern_matchAndRewrite view_op adaptor
    = Some (replaceOp [adaptor_source adaptor]).
Proof.
  intros [vsrc vshift vsizes vty] [asrc ashift asizes] dst src; cbn.
  intros Hbuf -> Hc Hwd Hws Hd Hs Hmod.
  unfold FoldMemrefViewPattern_matchAndRewrite; cbn.
  rewrite Hbuf, Hc; cbn.
  rewrite (proj2 (GetTypeSizeBytes_is_exact_size_mod_2_32 vty) Hwd), Hd.
  rewrite (proj2 (GetTypeSizeBytes_is_exact_size_mod_2_32 (getType vsrc)) Hws),
    Hs.
  cbn [option_map]. unfold to_unsigned.
  change (2 ^ 32)%Z with 4294967296%Z. rewrite Hmod, Z.eqb_refl.
  reflexivity.
Qed.

Lemma view_folds_on_sizes_equal_mod_2_32_witness :
  exact_size (view_getType wrapping_view) = Some 0%Z
  /\ exact_size (getType (view_source wrapping_view)) = Some 4294967296%Z
  /\ FoldMemrefViewPattern_matchAndRewrite wrapping_view mismatch_adaptor
     = Some (replaceOp [adaptor_source mismatch_adaptor]).
Proof.
  split; [reflexivity | split; [reflexivity |]].
  apply (@view_folds_on_sizes_equal_mod_2_32 wrapping_view mismatch_adaptor
           0%Z 4294967296%Z);
    reflexivity.
Defined.

End ViewFacts.

(** ** Conversion of result types *)

Module TypeConversionFacts.
Import TypeConversion.

Section Converter.

Variable convertType : MlirType -> option (list MlirType).

Lemma convertTypes_some :
  forall types results parts,
    Forall2 (fun t p => convertType t = Some p) types parts ->
    convertTypes convertType types results = Some (results ++ List.concat parts).
Proof.
  intros types results parts HF. revert results.
  induction HF as [| t p types parts Ht _ IH]; intros results; cbn.
  - rewrite app_nil_r. reflexivity.
  - rewrite Ht, IH, <- app_assoc. reflexivity.
Qed.

Lemma convertTypes_none :
  forall types results,
    convertTypes convertType types results = None
    <-> Exists (fun t => convertType t = None) types.
Proof.
  induction types as [| t types IH]; intros results; cbn.
  - split; [discriminate | intros H; inversion H].
  - destruct (convertType t) as [p |] eqn:E.
    + rewrite IH. split.
      * intros H. right. exact H.
      * intros H. inversion H; subst; [congruence | assumption].
    + split; [intros _; left; exact E | reflexivity].
Qed.

(** X10: the pattern that converts the types of a call or a return fails to
    match exactly when one of the result types of the operation cannot be
    converted.  Otherwise it replaces the operation by one with the
    converted types of all results joined in order, the converted operands
    as handed in and the attributes of the operation; the number of results
    can change, the operands and attributes cannot. *)
Theorem ConvertOpTypesPattern_outcome :
  forall (op : TypedOp) (adaptor_operands : list Conversion.Value),
    (ConvertOpTypesPattern_matchAndRewrite convertType op adaptor_operands
       = notifyMatchFailure "failed to convert result types"
     <-> Exists (fun t => convertType t = None) (getResultTypes op))
    /\ (forall parts,
          Forall2 (fun t p => convertType t = Some p) (getResultTypes op)
                  parts ->
          ConvertOpTypesPattern_matchAndRewrite convertType op
            adaptor_operands
          = replaceOpWithNewOp (List.concat parts) adaptor_operands (getAttrs op)).
Proof.
  intros op operands. unfold ConvertOpTypesPattern_matchAndRewrite. split.
  - destruct (convertTypes convertType (getResultTypes op) []) eqn:E.
    + split; [discriminate |].
      intros H. apply (convertTypes_none _ []) in H. congruence.
    + split; [| reflexivity].
      intros _. apply (convertTypes_none _ []). exact E.
  - intros parts HF. rewrite (convertTypes_some [] HF). reflexivity.
Qed.

End Converter.

Lemma ConvertOpTypesPattern_outcome_witness :
  ConvertOpTypesPattern_matchAndRewrite
    (fun t => match t with
              | ShapedType _ _ => Some [BufferType]
              | ChainType => Some [ChainType; StreamType]
              | _ => None
              end)
    (mkTypedOp [ShapedType (FloatType 32) [4%Z]; ChainType]
               [("callee"%string, "f"%string)])
    []
  = replaceOpWithNewOp [BufferType; ChainType; StreamType] []
                       [("callee"%string, "f"%string)].
Proof.
  apply (proj2 (ConvertOpTypesPattern_outcome
                  (fun t => match t with
                            | ShapedType _ _ => Some [BufferType]
                            | ChainType => Some [ChainType; StreamType]
                            | _ => None
                            end)
                  (mkTypedOp [ShapedType (FloatType 32) [4%Z]; ChainType]
                             [("callee"%string, "f"%string)])
                  [])
           [[BufferType]; [ChainType; StreamType]]).
  repeat constructor.
Defined.

End TypeConversionFacts.

(** ** Stream and chain *)

Lemma last_opt_snoc :
  forall (A : Type) (l : list A) (a : A), last_opt (l ++ [a]) = Some a.
Proof.
  intros A l a. induction l as [| x l IH]; [reflexivity |].
  cbn. destruct (l ++ [a]) eqn:E; [destruct l; discriminate | exact IH].
Qed.

Lemma update_last_snoc :
  forall (A : Type) (f : A -> option A) (before : list A) (a a' : A),
    f a = Some a' ->
    update_last f (before ++ [a]) = Some (before ++ [a']).
Proof.
  intros A f before a a' Hf. induction before as [| x before IH]; cbn.
  - rewrite Hf. reflexivity.
  - destruct (before ++ [a]) eqn:E; [destruct before; discriminate |].
    rewrite IH. reflexivity.
Qed.

Lemma update_last_some :
  forall (A : Type) (f : A -> option A) (l l' : list A),
    update_last f l = Some l' ->
    exists before a a',
      l = before ++ [a] /\ f a = Some a' /\ l' = before ++ [a'].
Proof.
  intros A f l. induction l as [| x l IH]; intros l' H; [discriminate |].
  destruct l as [| y l].
  - cbn in H. destruct (f x) as [x' |] eqn:E; [| discriminate].
    injection H as <-. exists [], x, x'. repeat split. exact E.
  - change (update_last f (x :: y :: l))
      with (match update_last f (y :: l) with
            | Some l'' => Some (x :: l'')
            | None => None
            end) in H.
    destruct (update_last f (y :: l)) as [l2 |] eqn:E; [| discriminate].
    injection H as <-.
    destruct (IH l2 eq_refl) as (before & a & a' & Hl & Hf & Hl2).
    exists (x :: before), a, a'. cbn. rewrite Hl, Hl2.
    repeat split. exact Hf.
Qed.

(** X12: setting the chain is defined exactly on a region whose last block
    has a last operation, and all it changes is the operand list of that
    operation, which becomes the one value [chain]: the blocks in front,
    the arguments of the last block and the operations in front of the
    terminator stay as they are. *)
Theorem SetChain_changes_terminator_operands_only :
  forall (chain : Value) (region region' : list Block),
    GpuAsyncOpConversionSetChain chain region = Some region'
    <-> exists before args ops terminator,
          region = before ++ [mkBlock args (ops ++ [terminator])]
          /\ region'
             = before
               ++ [mkBlock args (ops ++ [setOperands terminator [chain]])].
Proof.
  intros chain region region'. unfold GpuAsyncOpConversionSetChain. split.
  - intros H. apply update_last_some in H.
    destruct H as (before & [args ops] & b' & Hr & Hb & Hr').
    destruct (update_last (fun t => Some (setOperands t [chain])) ops)
      as [ops' |] eqn:E; [| discriminate].
    injection Hb as <-.
    apply update_last_some in E.
    destruct E as (front & t & t' & Hops & Ht & Hops').
    injection Ht as <-.
    exists before, args, front, t. subst. split; reflexivity.
  - intros (before & args & ops & t & -> & ->).
    apply update_last_snoc.
    rewrite (update_last_snoc (fun t0 => Some (setOperands t0 [chain]))
               ops t eq_refl).
    reflexivity.
Qed.

(** X11: after the chain of a region has been set, the chain read from an
    async.execute operation that owns the region is the value that was
    set; the stream read from it is the one read before; and setting
    another chain afterwards gives what setting it at once would have
    given. *)
Theorem SetChain_then_GetChain :
  forall (chain : Value) (region region' : list Block),
    GpuAsyncOpConversionSetChain chain region = Some region' ->
    forall (i : nat) (o : list Value) (r : list MlirType)
           (rest : list (list Block)) (chain2 : Value),
      GpuAsyncOpConversionGetChain
        (Some (mkOp i AsyncExecuteOp o r (region' :: rest)))
      = Found chain
      /\ GpuAsyncOpConversionGetStream
           (Some (mkOp i AsyncExecuteOp o r (region' :: rest)))
         = GpuAsyncOpConversionGetStream
             (Some (mkOp i AsyncExecuteOp o r (region :: rest)))
      /\ GpuAsyncOpConversionSetChain chain2 region'
         = GpuAsyncOpConversionSetChain chain2 region.
Proof.
  intros chain region region' H i o r rest chain2.
  apply SetChain_changes_terminator_operands_only in H.
  destruct H as (before & args & ops & t & -> & ->).
  split; [| split].
  - cbn. rewrite last_opt_snoc. cbn. rewrite last_opt_snoc.
    destruct t. reflexivity.
  - cbn. destruct before as [| b before]; reflexivity.
  - unfold GpuAsyncOpConversionSetChain.
    rewrite (update_last_snoc _ before
               (mkBlock args (ops ++ [setOperands t [chain]]))
               (a' := mkBlock args (ops ++ [setOperands t [chain2]]))).
    2: { rewrite (update_last_snoc
                    (fun t0 => Some (setOperands t0 [chain2])) ops
                    (setOperands t [chain]) eq_refl).
         destruct t. reflexivity. }
    rewrite (update_last_snoc _ before
               (mkBlock args (ops ++ [t]))
               (a' := mkBlock args (ops ++ [setOperands t [chain2]]))).
    2: { rewrite (update_last_snoc
                    (fun t0 => Some (setOperands t0 [chain2])) ops t eq_refl).
         reflexivity. }
    reflexivity.
Qed.

Lemma SetChain_changes_terminator_operands_only_witness :
  exists before args ops terminator,
    sample_region = before ++ [mkBlock args (ops ++ [terminator])]
    /\ [mkBlock [ChainType; StreamType]
          [legal_op 2; mkOp 3 ReturnOp [OpResult 2 0] [] []]]
       = before
         ++ [mkBlock args (ops ++ [setOperands terminator [OpResult 2 0]])].
Proof.
  apply (proj1 (SetChain_changes_terminator_operands_only (OpResult 2 0)
                  sample_region
                  [mkBlock [ChainType; StreamType]
                     [legal_op 2; mkOp 3 ReturnOp [OpResult 2 0] [] []]])).
  reflexivity.
Defined.

Lemma SetChain_then_GetChain_witness :
  GpuAsyncOpConversionGetChain
    (Some (mkOp 1 AsyncExecuteOp [] []
             [[mkBlock [ChainType; StreamType]
                 [legal_op 2; mkOp 3 ReturnOp [OpResult 2 0] [] []]]]))
  = Found (OpResult 2 0).
Proof.
  apply (@SetChain_then_GetChain (OpResult 2 0) sample_region
           [mkBlock [ChainType; StreamType]
              [legal_op 2; mkOp 3 ReturnOp [OpResult 2 0] [] []]]
           eq_refl 1 [] [] [] (OpResult 2 0)).
Defined.

(** ** The DNN kernels *)

Module DnnFacts.
Import Dnn.

Lemma DType_eqb_eq : forall a b, DType_eqb a b = true <-> a = b.
Proof.
  intros a b. destruct a, b; cbn; split; intros H;
    try reflexivity; discriminate.
Qed.

Lemma DType_eqb_refl : forall a, DType_eqb a a = true.
Proof. intros a. apply DType_eqb_eq. reflexivity. Qed.

(** X13: reading a tensor as a vector succeeds exactly on a tensor of rank 1
    with the wanted element type.  A wrong rank is reported before a wrong
    element type is, and on success the vector has one element per element
    of the tensor: for a buffer that holds [n] elements, all of them. *)
Theorem GetTensorData_rank_then_type :
  forall (T : DType) (t : DenseHostTensor),
    (GetRank t <> 1 ->
     GetTensorData T t
     = Err (StringError
              "GetTensorData: input tensor is not a rank 1 tensor"))
    /\ (GetRank t = 1 -> dtype t <> T ->
        GetTensorData T t
        = Err (StringError
                 "GetTensorData: input tensor type mismatch with desired vector type."))
    /\ ((exists d, GetTensorData T t = Ok d) <-> GetRank t = 1 /\ dtype t = T)
    /\ (forall n,
          shape t = [n] -> dtype t = T ->
          List.length (data t) = Z.to_nat n ->
          GetTensorData T t = Ok (data t)).
Proof.
  intros T t. unfold GetTensorData.
  split; [| split; [| split]].
  - intros Hr. apply Nat.eqb_neq in Hr. rewrite Hr. reflexivity.
  - intros Hr Hd. rewrite Hr. cbn.
    destruct (DType_eqb (dtype t) T) eqn:E; [| reflexivity].
    apply DType_eqb_eq in E. contradiction.
  - destruct (Nat.eqb_spec (GetRank t) 1) as [Hr | Hr]; cbn.
    + destruct (DType_eqb (dtype t) T) eqn:E; cbn.
      * apply DType_eqb_eq in E.
        split; [intros _; split; assumption | intros _; eexists; reflexivity].
      * split; [intros [d Hd]; discriminate |].
        intros [_ Hd]. apply DType_eqb_eq in Hd. congruence.
    + split; [intros [d Hd]; discriminate | intros [H _]; contradiction].
  - intros n Hs Hd Hlen. unfold GetRank, NumElements. rewrite Hs. cbn.
    rewrite Hd, DType_eqb_refl. cbn.
    rewrite Z.mul_1_r, <- Hlen, firstn_all. reflexivity.
Qed.

Lemma GetTensorData_rank_then_type_witness :
  GetTensorData I32 (mkTensor I32 [3%Z] [2%Z; 2%Z; 1%Z])
  = Ok [2%Z; 2%Z; 1%Z].
Proof.
  apply (proj2 (proj2 (proj2 (GetTensorData_rank_then_type I32
                                (mkTensor I32 [3%Z] [2%Z; 2%Z; 1%Z]))))
           3%Z);
    reflexivity.
Defined.

(** X14: the two casts from a number to an enumerator accept exactly the
    numbers 0 to 3 and 0 to 1, and no two numbers give the same
    enumerator. *)
Theorem enum_casts_accept_their_range :
  forall mode : Z,
    ((exists m, IntToDnnPoolingMode mode = Ok m) <-> (0 <= mode <= 3)%Z)
    /\ ((exists p, IntToDnnNanPropagation mode = Ok p) <-> (0 <= mode <= 1)%Z)
    /\ (forall mode' m,
          IntToDnnPoolingMode mode = Ok m ->
          IntToDnnPoolingMode mode' = Ok m -> mode = mode')
    /\ (forall mode' p,
          IntToDnnNanPropagation mode = Ok p ->
          IntToDnnNanPropagation mode' = Ok p -> mode = mode').
Proof.
  intros mode.
  assert (Hpool_out : forall z, (z < 0 \/ 3 < z)%Z ->
                      forall m, IntToDnnPoolingMode z <> Ok m).
  { intros z Hz m.
    destruct z as [| q | q]; [lia | | discriminate].
    destruct q as [[q | q |] | [q | q |] |]; cbn; try discriminate; lia. }
  assert (Hnan_out : forall z, (z < 0 \/ 1 < z)%Z ->
                     forall p, IntToDnnNanPropagation z <> Ok p).
  { intros z Hz p.
    destruct z as [| q | q]; [lia | | discriminate].
    destruct q as [q | q |]; cbn; try discriminate; lia. }
  assert (Hpool : forall z m, IntToDnnPoolingMode z = Ok m ->
                  (z = 0%Z /\ m = kPoolingMax)
                  \/ (z = 1%Z /\ m = kPoolingAverageCountIncludePadding)
                  \/ (z = 2%Z /\ m = kPoolingAverageCountExcludePadding)
                  \/ (z = 3%Z /\ m = kPoolingMaxDeterministic)).
  { intros z m H.
    assert (Hr : (z = 0 \/ z = 1 \/ z = 2 \/ z = 3)%Z).
    { destruct (Z_lt_dec z 0) as [Hl | Hl];
        [exfalso; apply (Hpool_out z (or_introl Hl) m H) |].
      destruct (Z_lt_dec 3 z) as [Hg | Hg];
        [exfalso; apply (Hpool_out z (or_intror Hg) m H) |].
      lia. }
    destruct Hr as [-> | [-> | [-> | ->]]]; cbn in H; injection H as <-.
    - left. split; reflexivity.
    - right. left. split; reflexivity.
    - right. right. left. split; reflexivity.
    - right. right. right. split; reflexivity. }
  assert (Hnan : forall z p, IntToDnnNanPropagation z = Ok p ->
                 (z = 0%Z /\ p = kNotPropagateNan)
                 \/ (z = 1%Z /\ p = kPropagateNan)).
  { intros z p H.
    assert (Hr : (z = 0 \/ z = 1)%Z).
    { destruct (Z_lt_dec z 0) as [Hl | Hl];
        [exfalso; apply (Hnan_out z (or_introl Hl) p H) |].
      destruct (Z_lt_dec 1 z) as [Hg | Hg];
        [exfalso; apply (Hnan_out z (or_intror Hg) p H) |].
      lia. }
    destruct Hr as [-> | ->]; cbn in H; injection H as <-.
    - left. split; reflexivity.
    - right. split; reflexivity. }
  split; [| split; [| split]].
  - split.
    + intros [m Hm]. apply Hpool in Hm.
      destruct Hm as [[-> _] | [[-> _] | [[-> _] | [-> _]]]]; lia.
    + intros Hr.
      assert (Hc : (mode = 0 \/ mode = 1 \/ mode = 2 \/ mode = 3)%Z) by lia.
      destruct Hc as [-> | [-> | [-> | ->]]]; eexists; reflexivity.
  - split.
    + intros [p Hp]. apply Hnan in Hp.
      destruct Hp as [[-> _] | [-> _]]; lia.
    + intros Hr.
      assert (Hc : (mode = 0 \/ mode = 1)%Z) by lia.
      destruct Hc as [-> | ->]; eexists; reflexivity.
  - intros mode' m H H'. apply Hpool in H. apply Hpool in H'.
    destruct H as [[-> ->] | [[-> ->] | [[-> ->] | [-> ->]]]];
      destruct H' as [[-> E] | [[-> E] | [[-> E] | [-> E]]]];
      try reflexivity; discriminate.
  - intros mode' p H H'. apply Hnan in H. apply Hnan in H'.
    destruct H as [[-> ->] | [-> ->]];
      destruct H' as [[-> E] | [-> E]];
      try reflexivity; discriminate.
Qed.

Lemma enum_casts_accept_their_range_witness :
  exists m, IntToDnnPoolingMode 2 = Ok m.
Proof.
  apply (proj2 (proj1 (enum_casts_accept_their_range 2%Z))). lia.
Defined.

Section Wrapper.

Variables Platform Descriptor : Type.
Variable create : Platform -> Expected Descriptor.
Variable set :
  Descriptor -> Z * Platform -> list Z -> list Z -> option Error.

Lemma GetTensorData_I32 :
  forall t,
    dtype t = I32 ->
    GetTensorData I32 t
    = if GetRank t =? 1
      then Ok (firstn (Z.to_nat (NumElements t)) (data t))
      else Err (StringError
                  "GetTensorData: input tensor is not a rank 1 tensor").
Proof.
  intros t Hd. unfold GetTensorData. rewrite Hd. cbn.
  destruct (GetRank t =? 1); reflexivity.
Qed.

(** X15: making a tensor descriptor succeeds exactly when the library makes
    the descriptor, the dimensions and the strides are both rank-1 tensors
    of 32-bit integers, and the library accepts the data type, cast to a
    signed integer, with the elements of the two tensors; the descriptor
    returned is the one the library made.  The lengths of the two tensors
    are not compared. *)
Theorem DnnCreateTensorDescriptor_succeeds_iff :
  forall (platform : Platform) (data_type : Z)
         (dimensions strides : DenseHostTensor) (descriptor : Descriptor),
    DnnCreateTensorDescriptor create set platform data_type dimensions strides
      = Ok descriptor
    <-> create platform = Ok descriptor
        /\ dtype dimensions = I32 /\ GetRank dimensions = 1
        /\ dtype strides = I32 /\ GetRank strides = 1
        /\ set descriptor (static_cast_int data_type, platform)
               (firstn (Z.to_nat (NumElements dimensions)) (data dimensions))
               (firstn (Z.to_nat (NumElements strides)) (data strides))
           = None.
Proof.
  intros platform data_type dims strides d.
  unfold DnnCreateTensorDescriptor.
  destruct (create platform) as [d0 | e].
  2: { split; [discriminate | intros [H _]; discriminate]. }
  destruct (DType_eqb (dtype dims) I32) eqn:Ed; cbn.
  2: { split; [discriminate |].
       intros (_ & H & _). apply DType_eqb_eq in H. congruence. }
  apply DType_eqb_eq in Ed. rewrite (GetTensorData_I32 dims Ed).
  destruct (Nat.eqb_spec (GetRank dims) 1) as [Hr | Hr].
  2: { split; [discriminate | intros (_ & _ & H & _); contradiction]. }
  destruct (DType_eqb (dtype strides) I32) eqn:Es; cbn.
  2: { split; [discriminate |].
       intros (_ & _ & _ & H & _). apply DType_eqb_eq in H. congruence. }
  apply DType_eqb_eq in Es. rewrite (GetTensorData_I32 strides Es).
  destruct (Nat.eqb_spec (GetRank strides) 1) as [Hs | Hs].
  2: { split; [discriminate | intros (_ & _ & _ & _ & H & _); contradiction]. }
  destruct (set d0 (static_cast_int data_type, platform) _ _) as [e |] eqn:E.
  - split; [discriminate |].
    intros (H & _ & _ & _ & _ & H'). injection H as ->. congruence.
  - split.
    + intros H. injection H as ->. repeat split; assumption.
    + intros (H & _). injection H as ->. reflexivity.
Qed.

(** X16: the checks of [DnnCreateTensorDescriptor] come in a fixed order,
    and the first that fails decides the error: the error of the library
    when it cannot make a descriptor, then the element type of the
    dimensions, their rank, the element type of the strides, their rank,
    and last the error of the library when it rejects the values.  The
    messages of [GetTensorData] itself are replaced by the messages of the
    caller. *)
Theorem DnnCreateTensorDescriptor_first_error :
  forall (platform : Platform) (data_type : Z)
         (dimensions strides : DenseHostTensor),
    let result :=
      DnnCreateTensorDescriptor create set platform data_type dimensions
        strides in
    (forall e, create platform = Err e -> result = Err e)
    /\ (forall descriptor,
          create platform = Ok descriptor ->
          (dtype dimensions <> I32 ->
           result
           = Err (StringError
                    "DnnCreateTensorDescriptor: dimensions is not an I32 tensor."))
          /\ (dtype dimensions = I32 -> GetRank dimensions <> 1 ->
              result
              = Err (StringError
                       "DnnCreateTensorDescriptor: dimensions is not a 1D tensor."))
          /\ (dtype dimensions = I32 -> GetRank dimensions = 1 ->
              dtype strides <> I32 ->
              result
              = Err (StringError
                       "DnnCreateTensorDescriptor: strides is not an I32 tensor."))
          /\ (dtype dimensions = I32 -> GetRank dimensions = 1 ->
              dtype strides = I32 -> GetRank strides <> 1 ->
              result
              = Err (StringError
                       "DnnCreateTensorDescriptor: strides is not a 1D tensor."))
          /\ (forall e,
                dtype dimensions = I32 -> GetRank dimensions = 1 ->
                dtype strides = I32 -> GetRank strides = 1 ->
                set descriptor (static_cast_int data_type, platform)
                    (firstn (Z.to_nat (NumElements dimensions))
                            (data dimensions))
                    (firstn (Z.to_nat (NumElements strides)) (data strides))
                = Some e ->
                result = Err e)).
Proof.
  intros platform data_type dims strides result. subst result.
  unfold DnnCreateTensorDescriptor. split.
  - intros e ->. reflexivity.
  - intros d ->.
    assert (Hne : forall a, a <> I32 -> DType_eqb a I32 = false).
    { intros a Ha. destruct (DType_eqb a I32) eqn:E; [| reflexivity].
      apply DType_eqb_eq in E. contradiction. }
    split; [| split; [| split; [| split]]].
    + intros Hd. rewrite (Hne _ Hd). reflexivity.
    + intros Hd Hr. rewrite Hd. cbn [DType_eqb negb].
      rewrite (GetTensorData_I32 dims Hd).
      apply Nat.eqb_neq in Hr. rewrite Hr. reflexivity.
    + intros Hd Hr Hs. rewrite Hd. cbn [DType_eqb negb].
      rewrite (GetTensorData_I32 dims Hd), Hr. cbn [Nat.eqb].
      rewrite (Hne _ Hs). reflexivity.
    + intros Hd Hr Hs Hrs. rewrite Hd. cbn [DType_eqb negb].
      rewrite (GetTensorData_I32 dims Hd), Hr. cbn [Nat.eqb].
      rewrite Hs. cbn [DType_eqb negb].
      rewrite (GetTensorData_I32 strides Hs).
      apply Nat.eqb_neq in Hrs. rewrite Hrs. reflexivity.
    + intros e Hd Hr Hs Hrs Hset. rewrite Hd. cbn [DType_eqb negb].
      rewrite (GetTensorData_I32 dims Hd), Hr. cbn [Nat.eqb].
      rewrite Hs. cbn [DType_eqb negb].
      rewrite (GetTensorData_I32 strides Hs), Hrs. cbn [Nat.eqb].
      rewrite Hset. reflexivity.
Qed.

End Wrapper.

Lemma DnnCreateTensorDescriptor_succeeds_iff_witness :
  DnnCreateTensorDescriptor (fun _ : unit => Ok 7)
    (fun (_ : nat) (_ : Z * unit) (_ _ : list Z) => None)
    tt 4294967295%Z
    (mkTensor I32 [2%Z] [8%Z; 16%Z]) (mkTensor I32 [3%Z] [16%Z; 1%Z; 1%Z])
  = Ok 7.
Proof.
  apply (proj2 (@DnnCreateTensorDescriptor_succeeds_iff unit nat
                  (fun _ => Ok 7) (fun _ _ _ _ => None) tt 4294967295%Z
                  (mkTensor I32 [2%Z] [8%Z; 16%Z])
                  (mkTensor I32 [3%Z] [16%Z; 1%Z; 1%Z]) 7)).
  repeat split.
Defined.

Lemma DnnCreateTensorDescriptor_first_error_witness :
  DnnCreateTensorDescriptor (fun _ : unit => Ok 7)
    (fun (_ : nat) (_ : Z * unit) (_ _ : list Z) => None)
    tt 0%Z
    (mkTensor I64 [2%Z; 2%Z] []) (mkTensor F32 [] [])
  = Err (StringError
           "DnnCreateTensorDescriptor: dimensions is not an I32 tensor.").
Proof.
  apply (proj1 (proj2 (@DnnCreateTensorDescriptor_first_error unit nat
                         (fun _ => Ok 7) (fun _ _ _ _ => None) tt 0%Z
                         (mkTensor I64 [2%Z; 2%Z] []) (mkTensor F32 [] []))
                  7 eq_refl)).
  discriminate.
Defined.

End DnnFacts.
